(** * microevents: the event bus (src/microevents/event_bus.py, core.py)

    A shallow embedding of [EventBus] and of the module-level facade of
    [microevents.core], followed by the properties of registration,
    removal, ordering and dispatch that the specification states.

    Conventions.
    - Python [int] is [Z]; [str] is [string]; a [dict] is a [gmap].
    - The re-entrant lock [_lock] guards every registry access and is never
      held across a callback.  The model is sequential: one call of a
      method is one function application, and whatever a callback (or code
      interleaved with it while it is awaited) does to the bus is part of
      the callback's state transformer.
    - A raising call returns [Raise e]; nothing else is an error. *)

From Stdlib Require Import ZArith List Bool Lia Sorted Permutation.
From stdpp Require Import gmap strings list fin_maps sorting.
Import ListNotations.

Local Open Scope Z_scope.

(** ** Python values seen by the bus *)

(** A callable object.  [fn_id] is the object's identity (what [is]
    compares); [fn_repr] is what a user-defined [__eq__] would compare, so
    two distinct objects may be equal under [==] without being identical. *)
Record callable : Type := Callable { fn_id : nat; fn_repr : nat }.

Inductive pyobj : Type :=
| PyNone
| PyInt (z : Z)
| PyStr (s : string)
| PyFunc (f : callable)
| PyTask (n : nat).

(** [callable(o)] *)
Definition py_callable (o : pyobj) : bool :=
  match o with PyFunc _ => true | _ => false end.

(** [f is o], for a stored callback [f] *)
Definition func_is (f : callable) (o : pyobj) : bool :=
  match o with PyFunc g => Nat.eqb (fn_id f) (fn_id g) | _ => false end.

(** [f == g] on callables (structural equality; never used by the bus) *)
Definition func_eq (f g : callable) : bool := Nat.eqb (fn_repr f) (fn_repr g).

(** Exceptions: the class name and the message. *)
Record exn : Type := Exn { exn_class : string; exn_msg : string }.

Definition TypeError (msg : string) : exn := Exn "TypeError"%string msg.

Inductive result (A : Type) : Type :=
| Ok (a : A)
| Raise (e : exn).
Arguments Ok {A} a.
Arguments Raise {A} e.

(** ** [_Handler] *)

(** [@dataclass(order=True) class _Handler].  The field [sort_index] is
    [init=False]: [__post_init__] sets it from the other two sorting
    fields and nothing writes it afterwards, so it is a function of the
    record. *)
Record _Handler : Type := mk_Handler {
  priority : Z;
  order : Z;
  func : callable;
  once : bool
}.

Definition sort_index (h : _Handler) : Z * Z := (- priority h, order h).

(** Python's comparison of two 2-tuples of integers. *)
Definition tuple_eqb (a b : Z * Z) : bool :=
  (fst a =? fst b) && (snd a =? snd b).

Definition tuple_ltb (a b : Z * Z) : bool :=
  if negb (fst a =? fst b) then fst a <? fst b else snd a <? snd b.

(** The generated [__eq__] and [__lt__] compare the tuples
    [(sort_index, priority, order)]; [func] and [once] are
    [compare=False]. *)
Definition handler_eqb (x y : _Handler) : bool :=
  tuple_eqb (sort_index x) (sort_index y)
  && (priority x =? priority y)
  && (order x =? order y).

Definition handler_ltb (x y : _Handler) : bool :=
  if negb (tuple_eqb (sort_index x) (sort_index y))
  then tuple_ltb (sort_index x) (sort_index y)
  else if negb (priority x =? priority y)
       then priority x <? priority y
       else order x <? order y.

(** [x in l] for a list of records: identity or [==]; identical records
    are equal, so this is [any (x == y)]. *)
Definition handler_in (x : _Handler) (l : list _Handler) : bool :=
  existsb (handler_eqb x) l.

(** ** [list.sort()] on records

    Python's sort is stable and uses only [<].  Straight insertion from
    the right is the reference stable sort: a record goes in front of the
    first element that is not smaller than it. *)
Fixpoint insert_sorted (x : _Handler) (l : list _Handler) : list _Handler :=
  match l with
  | [] => [x]
  | y :: l' => if handler_ltb y x then y :: insert_sorted x l' else x :: l
  end.

Fixpoint sort (l : list _Handler) : list _Handler :=
  match l with
  | [] => []
  | x :: l' => insert_sorted x (sort l')
  end.

(** ** [EventBus] *)

Record EventBus : Type := mkEventBus {
  _handlers : gmap string (list _Handler);
  _counter : Z
}.

(** [EventBus.__init__] *)
Definition EventBus_init : EventBus :=
  {| _handlers := ∅; _counter := 0 |}.

(** [self._handlers.get(event, [])] *)
Definition get_handlers (self : EventBus) (event : string) : list _Handler :=
  default [] (_handlers self !! event).

(** [EventBus.on] *)
Definition on (self : EventBus) (event : string) (handler : pyobj)
    (prio : Z) (once_flag : bool) : EventBus * result unit :=
  match handler with
  | PyFunc f =>
      let c := _counter self + 1 in
      let h := mk_Handler prio c f once_flag in
      ({| _handlers := <[event := get_handlers self event ++ [h]]> (_handlers self);
          _counter := c |},
       Ok tt)
  | _ => (self, Raise (TypeError "handler must be callable"%string))
  end.

(** [EventBus.off] *)
Definition off (self : EventBus) (event : string) (handler : pyobj)
    : EventBus * Z :=
  let lst := get_handlers self event in
  match lst with
  | [] => (self, 0)
  | _ =>
    match handler with
    | PyNone =>
        let removed := Z.of_nat (length lst) in
        ({| _handlers := <[event := []]> (_handlers self);
            _counter := _counter self |}, removed)
    | _ =>
        let before := Z.of_nat (length lst) in
        let kept := List.filter (fun h => negb (func_is (func h) handler)) lst in
        ({| _handlers := <[event := kept]> (_handlers self);
            _counter := _counter self |},
         before - Z.of_nat (length kept))
    end
  end.

(** [EventBus.clear] *)
Definition clear (self : EventBus) : EventBus :=
  {| _handlers := ∅; _counter := _counter self |}.

(** [EventBus.list_receivers] *)
Definition list_receivers (self : EventBus) (event : string) : list callable :=
  List.map func (get_handlers self event).

(** ** Dispatch *)

(** [*args, **kwargs] of a dispatch. *)
Record payload : Type := Payload {
  args : list pyobj;
  kwargs : list (string * pyobj)
}.

Section Dispatch.

(** Whatever the callbacks read and write besides the bus. *)
Variable State : Type.

(** The state a dispatch runs in.  [running_loop] is the asyncio event
    loop of the calling thread: [None] when no loop is running
    ([asyncio.get_running_loop()] raises [RuntimeError]), otherwise the
    dispatches scheduled on it by [loop.create_task], oldest first. *)
Record World : Type := mkWorld {
  bus : EventBus;
  store : State;
  running_loop : option (list (string * payload))
}.

Definition set_bus (w : World) (b : EventBus) : World :=
  {| bus := b; store := store w; running_loop := running_loop w |}.

Definition set_loop (w : World) (l : option (list (string * payload))) : World :=
  {| bus := bus w; store := store w; running_loop := l |}.

(** An awaitable returned by a callback: awaiting it runs it to
    completion, and it may raise. *)
Definition coroutine : Type := World -> World * result unit.

(** The callbacks' code: what calling [f(event, *args, **kwargs)] does.
    [Ok None] is any result that is not awaitable, [Ok (Some co)] an
    awaitable one. *)
Variable call_func :
  callable -> string -> payload -> World -> World * result (option coroutine).

(** One turn of the loop body up to the [once] test: [h.call(...)], then
    [await result] when [inspect.isawaitable(result)]. *)
Definition invoke (h : _Handler) (event : string) (p : payload) (w : World)
    : World * result unit :=
  match call_func (func h) event p w with
  | (w1, Raise e) => (w1, Raise e)
  | (w1, Ok None) => (w1, Ok tt)
  | (w1, Ok (Some co)) => co w1
  end.

(** State of the [for h in handlers] loop.  [called] is not in the
    source: it logs the records whose [call] was entered, in order. *)
Record delivery : Type := mkDelivery {
  d_world : World;
  d_outcome : result unit;
  d_to_remove : list _Handler;
  d_called : list _Handler
}.

Fixpoint deliver (handlers : list _Handler) (event : string) (p : payload)
    (w : World) (to_remove called : list _Handler) : delivery :=
  match handlers with
  | [] => mkDelivery w (Ok tt) to_remove called
  | h :: rest =>
      match invoke h event p w with
      | (w1, Raise e) => mkDelivery w1 (Raise e) to_remove (called ++ [h])
      | (w1, Ok _) =>
          deliver rest event p w1
            (if once h then to_remove ++ [h] else to_remove)
            (called ++ [h])
      end
  end.

(** The body of [if to_remove:], on the live registry. *)
Definition cleanup (self : EventBus) (event : string)
    (to_remove : list _Handler) : EventBus :=
  let current := get_handlers self event in
  {| _handlers :=
       <[event := List.filter (fun x => negb (handler_in x to_remove)) current]>
         (_handlers self);
     _counter := _counter self |}.

(** What a dispatch leaves behind: the state, how it ended, and the log
    of calls. *)
Record dispatched : Type := mkDispatched {
  after : World;
  outcome : result unit;
  calls : list _Handler
}.

(** [EventBus.emit] *)
Definition emit (event : string) (p : payload) (w : World) : dispatched :=
  let handlers := sort (get_handlers (bus w) event) in
  let d := deliver handlers event p w [] [] in
  match d_outcome d with
  | Raise e => mkDispatched (d_world d) (Raise e) (d_called d)
  | Ok _ =>
      match d_to_remove d with
      | [] => mkDispatched (d_world d) (Ok tt) (d_called d)
      | _ =>
          mkDispatched
            (set_bus (d_world d) (cleanup (bus (d_world d)) event (d_to_remove d)))
            (Ok tt) (d_called d)
      end
  end.

(** What the loop of [asyncio.run] does, once its coroutine has
    finished, with the dispatches that are still scheduled on it: each
    is run until it first suspends and is cancelled there.  Callbacks are
    not suspended half-way in this model, so that part of asyncio is
    taken as given: the state it leaves and the records it calls. *)
Variable loop_close :
  list (string * payload) -> World -> World * list _Handler.

(** [asyncio.run(coro)]: a fresh loop runs the coroutine to completion;
    what is still scheduled on the loop is dealt with; the loop is
    closed; the coroutine's exception, if any, propagates. *)
Definition asyncio_run (coro : World -> dispatched) (w : World) : dispatched :=
  let r := coro (set_loop w (Some [])) in
  match running_loop (after r) with
  | Some (t :: rest) =>
      let closed := loop_close (t :: rest) (after r) in
      mkDispatched (set_loop (fst closed) None) (outcome r)
                   (calls r ++ snd closed)
  | _ => mkDispatched (set_loop (after r) None) (outcome r) (calls r)
  end.

(** [EventBus.emit_sync].  The returned object is [None] or the task,
    named by its position on the loop. *)
Definition emit_sync (event : string) (p : payload) (w : World)
    : dispatched * result pyobj :=
  match running_loop w with
  | None =>
      let r := asyncio_run (emit event p) w in
      match outcome r with
      | Raise e => (r, Raise e)
      | Ok _ => (r, Ok PyNone)
      end
  | Some scheduled =>
      (mkDispatched (set_loop w (Some (scheduled ++ [(event, p)]))) (Ok tt) [],
       Ok (PyTask (length scheduled)))
  end.

(** The loop, later: it starts the oldest scheduled dispatch. *)
Definition run_scheduled (w : World) : option dispatched :=
  match running_loop w with
  | Some ((event, p) :: rest) =>
      Some (emit event p (set_loop w (Some rest)))
  | _ => None
  end.

End Dispatch.

Arguments bus {State} w.
Arguments store {State} w.
Arguments running_loop {State} w.
Arguments mkWorld {State} bus store running_loop.
Arguments set_bus {State} w b.
Arguments set_loop {State} w l.
Arguments invoke {State} call_func h event p w.
Arguments deliver {State} call_func handlers event p w to_remove called.
Arguments emit {State} call_func event p w.
Arguments asyncio_run {State} loop_close coro w.
Arguments emit_sync {State} call_func loop_close event p w.
Arguments run_scheduled {State} call_func w.
Arguments d_world {State} d.
Arguments d_outcome {State} d.
Arguments d_to_remove {State} d.
Arguments d_called {State} d.
Arguments after {State} d.
Arguments outcome {State} d.
Arguments calls {State} d.
Arguments mkDispatched {State} after outcome calls.
Arguments mkDelivery {State} d_world d_outcome d_to_remove d_called.

(** ** [microevents.core]

    The module owns one bus, [_default_bus], made when the module is
    loaded; each of its functions hands its arguments to the method of
    that bus with the same name. *)
Module core.

Definition _default_bus : EventBus := EventBus_init.

Definition on (default_bus : EventBus) (event : string) (handler : pyobj)
    (prio : Z) (once_flag : bool) : EventBus * result unit :=
  on default_bus event handler prio once_flag.

Definition off (default_bus : EventBus) (event : string) (handler : pyobj)
    : EventBus * Z :=
  off default_bus event handler.

Definition clear (default_bus : EventBus) : EventBus := clear default_bus.

Definition list_receivers (default_bus : EventBus) (event : string)
    : list callable :=
  list_receivers default_bus event.

(** The bus of the state is the default bus. *)
Definition emit {State : Type}
    (call_func : callable -> string -> payload -> World State ->
                 World State * result (option (coroutine State)))
    (event : string) (p : payload) (w : World State) : dispatched State :=
  emit call_func event p w.

Definition emit_sync {State : Type}
    (call_func : callable -> string -> payload -> World State ->
                 World State * result (option (coroutine State)))
    (loop_close : list (string * payload) -> World State ->
                  World State * list _Handler)
    (event : string) (p : payload) (w : World State)
    : dispatched State * result pyobj :=
  emit_sync call_func loop_close event p w.

End core.

(** * Vocabulary of the properties *)

(** ** The dispatch order *)

(** Ascending order on the keys [(-priority, sequence)]. *)
Definition key_lt (a b : Z * Z) : Prop :=
  a.1 < b.1 ∨ (a.1 = b.1 ∧ a.2 < b.2).

(** [x] runs before [y]: higher priority, or the same priority and an
    earlier registration. *)
Definition runs_before (x y : _Handler) : Prop :=
  priority y < priority x ∨ (priority x = priority y ∧ order x < order y).

(** [x] does not run after [y] (the non-strict version). *)
Definition not_after (x y : _Handler) : Prop :=
  priority y < priority x ∨ (priority x = priority y ∧ order x <= order y).

(** What [off] keeps of a record list. *)
Definition off_keeps (handler : pyobj) (h : _Handler) : bool :=
  match handler with
  | PyNone => false
  | _ => negb (func_is (func h) handler)
  end.

(** ** The sequence-number invariant *)

Record wf (b : EventBus) : Prop := mk_wf {
  (** the counter starts at 0 and only grows *)
  wf_counter : 0 <= _counter b;
  (** within an event, records are in registration order and their
      sequence numbers strictly increase *)
  wf_increasing : ∀ ev,
    StronglySorted (fun x y => order x < order y) (get_handlers b ev);
  (** every sequence number in the registry has been issued by the
      counter, so the next one, [_counter + 1], is new *)
  wf_issued : ∀ ev r, In r (get_handlers b ev) → 0 < order r <= _counter b;
  (** records of different events have different sequence numbers *)
  wf_distinct : ∀ ev1 ev2 r1 r2,
    In r1 (get_handlers b ev1) → In r2 (get_handlers b ev2) →
    order r1 = order r2 → ev1 = ev2
}.

(** ** Buses reached through the public methods *)

(** One change of the registry by a public method: [on], [off], [clear],
    or the once-cleanup that ends a dispatch. *)
Inductive api_step : EventBus → EventBus → Prop :=
| step_on b ev f prio fl : api_step b (on b ev (PyFunc f) prio fl).1
| step_off b ev handler : api_step b (off b ev handler).1
| step_clear b : api_step b (clear b)
| step_cleanup b ev rm : api_step b (cleanup b ev rm).

Definition bus_reach : EventBus → EventBus → Prop := rtc api_step.

(** The callbacks touch the bus through its methods only. *)
Definition uses_api {State : Type}
    (call_func : callable → string → payload → World State →
                 World State * result (option (coroutine State))) : Prop :=
  ∀ h ev p w, bus_reach (bus w) (bus (invoke call_func h ev p w).1).

(** ** Callbacks used in the examples

    The handler-side state is the list of the identities of the callbacks
    that ran, oldest first. *)
Module Demo.

Definition log (w : World (list nat)) (n : nat) : World (list nat) :=
  mkWorld (bus w) (store w ++ [n]) (running_loop w).

Definition boom : exn := Exn "ValueError"%string "boom"%string.

(** - callback 9 logs, then raises [ValueError("boom")];
    - callback 7 logs and registers itself again, once, for the event
      it is called with;
    - callback 8 is [async def]: the call returns a coroutine, which
      logs when awaited;
    - every other callback logs and returns [None]. *)
Definition call (f : callable) (ev : string) (p : payload)
    (w : World (list nat))
    : World (list nat) * result (option (coroutine (list nat))) :=
  if Nat.eqb (fn_id f) 9 then (log w 9, Raise boom)
  else if Nat.eqb (fn_id f) 7 then
    (set_bus (log w 7) (on (bus w) ev (PyFunc f) 0 true).1, Ok None)
  else if Nat.eqb (fn_id f) 8 then
    (w, Ok (Some (fun w' => (log w' 8, Ok tt))))
  else (log w (fn_id f), Ok None).

Definition nop : payload := Payload [] [].

Definition start (b : EventBus) : World (list nat) := mkWorld b [] None.

Definition f1 : callable := Callable 1 0.
Definition f2 : callable := Callable 2 0.
Definition f7 : callable := Callable 7 0.
Definition f8 : callable := Callable 8 0.
Definition f9 : callable := Callable 9 0.

(** Two objects that are equal under [==] and are not the same object. *)
Definition g1 : callable := Callable 11 5.
Definition g2 : callable := Callable 12 5.

(** [bus.on("e", f1, once=True); bus.on("e", f9)] *)
Definition bus_once_then_boom : EventBus :=
  (on (on EventBus_init "e" (PyFunc f1) 0 true).1 "e" (PyFunc f9) 0 false).1.

(** [bus.on("e", f9, once=True)] *)
Definition bus_once_boom : EventBus :=
  (on EventBus_init "e" (PyFunc f9) 0 true).1.

(** [bus.on("p", f1); bus.on("p", f2, priority=10);
    bus.on("p", f7, priority=10, once=True)] *)
Definition bus_three : EventBus :=
  (on (on (on EventBus_init "p" (PyFunc f1) 0 false).1
          "p" (PyFunc f2) 10 false).1
      "p" (PyFunc f7) 10 true).1.


(** [bus.on("evt", f8)], an [async def] handler *)
Definition bus_async : EventBus :=
  (on EventBus_init "evt" (PyFunc f8) 0 false).1.

(** [bus.on("x", g1); bus.on("x", g2); bus.on("x", g1, priority=3)] *)
Definition bus_equal_callbacks : EventBus :=
  (on (on (on EventBus_init "x" (PyFunc g1) 0 false).1
          "x" (PyFunc g2) 0 false).1
      "x" (PyFunc g1) 3 false).1.

End Demo.

(** ** The decorators *)

(** [EventBus.receiver(event, priority=..., once=...)] applied to
    [func]: [wrapper] registers it with [on] and returns it. *)
Definition receiver (self : EventBus) (event : string) (prio : Z)
    (once_flag : bool) (func : pyobj) : EventBus * result pyobj :=
  match on self event func prio once_flag with
  | (b, Ok _) => (b, Ok func)
  | (b, Raise e) => (b, Raise e)
  end.

Module core_decorator.

(** [core._get_bus]: [bus or _default_bus].  An [EventBus] defines
    neither [__bool__] nor [__len__], so a bus is always true. *)
Definition _get_bus (default_bus : EventBus) (bus : option EventBus) : EventBus :=
  match bus with
  | Some b => b
  | None => default_bus
  end.

(** [core.receiver(event, priority=..., once=..., bus=...)] applied to
    [func]; the bus returned is the one that was registered on. *)
Definition receiver (default_bus : EventBus) (event : string) (prio : Z)
    (once_flag : bool) (bus : option EventBus) (func : pyobj)
    : EventBus * result pyobj :=
  receiver (_get_bus default_bus bus) event prio once_flag func.

End core_decorator.

(** ** More vocabulary *)

(** The callbacks leave the bus as it is. *)
Definition keeps_bus {State : Type}
    (call_func : callable → string → payload → World State →
                 World State * result (option (coroutine State))) : Prop :=
  ∀ h ev p w, bus (invoke call_func h ev p w).1 = bus w.

(** One call [bus.on(event, handler, priority=..., once=...)]. *)
Record registration : Type := Registration {
  r_event : string;
  r_handler : pyobj;
  r_priority : Z;
  r_once : bool
}.

(** The calls of a list, made in order; a call that raises is passed
    over, as by a caller that catches the [TypeError]. *)
Definition replay (history : list registration) (b : EventBus) : EventBus :=
  fold_left
    (fun b r => (on b (r_event r) (r_handler r) (r_priority r) (r_once r)).1)
    history b.

(** The callback an entry registers for [ev], if it does. *)
Definition registered_for (ev : string) (r : registration) : option callable :=
  match r_handler r with
  | PyFunc f => if decide (r_event r = ev) then Some f else None
  | _ => None
  end.

(** Callbacks that only log, except callback 9, which logs and raises,
    and callback 5, which logs and calls [bus.clear()]. *)
Module Plain.

Definition call (f : callable) (ev : string) (p : payload)
    (w : World (list nat))
    : World (list nat) * result (option (coroutine (list nat))) :=
  (Demo.log w (fn_id f),
   if Nat.eqb (fn_id f) 9 then Raise Demo.boom else Ok None).

Definition call_clearing (f : callable) (ev : string) (p : payload)
    (w : World (list nat))
    : World (list nat) * result (option (coroutine (list nat))) :=
  if Nat.eqb (fn_id f) 5
  then (set_bus (Demo.log w 5) (clear (bus w)), Ok None)
  else (Demo.log w (fn_id f), Ok None).

Definition f5 : callable := Callable 5 0.

(** [bus.on("p", f1); bus.on("p", f5, priority=10)] *)
Definition bus_clearing : EventBus :=
  (on (on EventBus_init "p" (PyFunc Demo.f1) 0 false).1
      "p" (PyFunc f5) 10 false).1.

End Plain.

(** ** Delivery as the specification words it

    "Each handler is called with the event name plus the dispatch
    arguments.  If invocation yields a suspension handle, the engine
    suspends until that handle resolves before proceeding to the next
    handler"; the first failure ends the delivery.  This follows those
    words, on the callbacks themselves; [deliver] is compared with it. *)
Fixpoint call_in_order {State : Type}
    (call_func : callable → string → payload → World State →
                 World State * result (option (coroutine State)))
    (handlers : list _Handler) (ev : string) (p : payload) (w : World State)
    : World State * result unit :=
  match handlers with
  | [] => (w, Ok tt)
  | h :: rest =>
      match call_func (func h) ev p w with
      | (w1, Raise e) => (w1, Raise e)
      | (w1, Ok None) => call_in_order call_func rest ev p w1
      | (w1, Ok (Some co)) =>
          match co w1 with
          | (w2, Raise e) => (w2, Raise e)
          | (w2, Ok _) => call_in_order call_func rest ev p w2
          end
      end
  end.

(** Closing the loop when no callback ever suspends: each dispatch left
    on it runs whole, oldest first. *)
Definition close_by_running {State : Type}
    (call_func : callable → string → payload → World State →
                 World State * result (option (coroutine State)))
    (scheduled : list (string * payload)) (w : World State)
    : World State * list _Handler :=
  fold_left
    (fun acc t =>
       let r := emit call_func (fst t) (snd t) (fst acc) in
       (after r, snd acc ++ calls r))
    scheduled (set_loop w (Some []), []).

(** A callback that dispatches from inside a dispatch: callback 3 logs
    3, calls [emit_sync("inner")], which under the running loop schedules
    that dispatch, and logs 33; the other callbacks only log.  None of
    them suspends, so a dispatch the loop is left with runs whole when
    the loop is closed. *)
Module Nested.

Definition call (f : callable) (ev : string) (p : payload)
    (w : World (list nat))
    : World (list nat) * result (option (coroutine (list nat))) :=
  if Nat.eqb (fn_id f) 3 then
    let w1 := Demo.log w 3 in
    let w2 :=
      match running_loop w1 with
      | Some scheduled => set_loop w1 (Some (scheduled ++ [("inner"%string, p)]))
      | None => w1
      end in
    (Demo.log w2 33, Ok None)
  else (Demo.log w (fn_id f), Ok None).

Definition f3 : callable := Callable 3 0.

(** [bus.on("outer", f3); bus.on("inner", f1)] *)
Definition bus_nested : EventBus :=
  (on (on EventBus_init "outer" (PyFunc f3) 0 false).1
      "inner" (PyFunc Demo.f1) 0 false).1.

End Nested.

(** * Facts about the model *)

Lemma runs_before_key x y :
  runs_before x y ↔ key_lt (- priority x, order x) (- priority y, order y).
Proof. unfold runs_before, key_lt; simpl. lia. Qed.

Lemma handler_ltb_iff x y : handler_ltb x y = true ↔ runs_before x y.
Proof.
  unfold handler_ltb, tuple_eqb, tuple_ltb, sort_index, runs_before; simpl.
  destruct (Z.eqb_spec (- priority x) (- priority y)) as [Hp | Hp];
    destruct (Z.eqb_spec (order x) (order y)) as [Ho | Ho]; simpl.
  - destruct (Z.eqb_spec (priority x) (priority y)); simpl;
      rewrite Z.ltb_lt; lia.
  - rewrite Z.ltb_lt; lia.
  - rewrite Z.ltb_lt; lia.
  - rewrite Z.ltb_lt; lia.
Qed.

Lemma handler_ltb_false_iff x y : handler_ltb y x = false ↔ not_after x y.
Proof.
  rewrite <- not_true_iff_false, handler_ltb_iff.
  unfold runs_before, not_after. lia.
Qed.

Lemma handler_eqb_iff x y :
  handler_eqb x y = true ↔ priority x = priority y ∧ order x = order y.
Proof.
  unfold handler_eqb, tuple_eqb, sort_index; simpl.
  rewrite !andb_true_iff, !Z.eqb_eq. lia.
Qed.

Lemma handler_in_iff x l :
  handler_in x l = true ↔
  ∃ y, In y l ∧ priority x = priority y ∧ order x = order y.
Proof.
  unfold handler_in. rewrite existsb_exists.
  split; intros (y & Hy & H); exists y; split; auto; by apply handler_eqb_iff.
Qed.

Lemma not_after_trans x y z : not_after x y → not_after y z → not_after x z.
Proof. unfold not_after. lia. Qed.

Lemma runs_before_asym x y : runs_before x y → runs_before y x → False.
Proof. unfold runs_before. lia. Qed.

Lemma insert_sorted_Permutation x l : Permutation (insert_sorted x l) (x :: l).
Proof.
  induction l as [| y l IH]; simpl; [done |].
  destruct (handler_ltb y x); [| done].
  rewrite IH. apply perm_swap.
Qed.

Lemma sort_Permutation l : Permutation (sort l) l.
Proof.
  induction l as [| x l IH]; simpl; [done |].
  rewrite insert_sorted_Permutation. by constructor.
Qed.

Lemma insert_sorted_sorted x l :
  StronglySorted not_after l → StronglySorted not_after (insert_sorted x l).
Proof.
  induction 1 as [| y l Hl IH Hy]; simpl.
  - repeat constructor.
  - destruct (handler_ltb y x) eqn:E.
    + constructor; [done |].
      rewrite (insert_sorted_Permutation x l). constructor; [| done].
      apply handler_ltb_iff in E. unfold runs_before, not_after in *. lia.
    + apply handler_ltb_false_iff in E.
      constructor; [by constructor |].
      constructor; [done |].
      eapply Forall_impl; [exact Hy |].
      intros z Hz. by eapply not_after_trans.
Qed.

Lemma sort_sorted l : StronglySorted not_after (sort l).
Proof.
  induction l as [| x l IH]; simpl; [constructor |].
  by apply insert_sorted_sorted.
Qed.

(** With distinct sequence numbers the order is strict. *)
Lemma sorted_strict l :
  NoDup (List.map order l) →
  StronglySorted not_after l → StronglySorted runs_before l.
Proof.
  induction l as [| x l IH]; intros Hnd Hs; [constructor |].
  simpl in Hnd. apply NoDup_cons in Hnd as [Hx Hnd].
  apply StronglySorted_inv in Hs as [Hs Hall].
  constructor; [by apply IH |].
  rewrite Forall_forall in Hall. apply Forall_forall. intros y Hy.
  assert (order x ≠ order y).
  { intros E. apply Hx. rewrite E.
    apply list_elem_of_In, in_map. by apply list_elem_of_In. }
  specialize (Hall y Hy). unfold not_after, runs_before in *. lia.
Qed.

Lemma sort_strict l :
  NoDup (List.map order l) → StronglySorted runs_before (sort l).
Proof.
  intros Hnd. apply sorted_strict; [| apply sort_sorted].
  by rewrite (Permutation_map order (sort_Permutation l)).
Qed.

(** The sorted snapshot is the only arrangement of the snapshot that is
    ascending in [(-priority, sequence)]. *)
Lemma sort_unique l l' :
  NoDup (List.map order l) →
  Permutation l' l → StronglySorted runs_before l' → l' = sort l.
Proof.
  intros Hnd Hp Hs.
  apply (StronglySorted_unique_strong runs_before); [| done | by apply sort_strict |].
  - intros x y _ _ H1 H2. destruct (runs_before_asym _ _ H1 H2).
  - rewrite Hp. symmetry. apply sort_Permutation.
Qed.

(** The sort is stable: records that compare equal keep the order they
    had in the snapshot. *)
Lemma insert_sorted_stable k x l :
  List.filter (handler_eqb k) (insert_sorted x l) =
  List.filter (handler_eqb k) (x :: l).
Proof.
  induction l as [| y l IH]; [done |]. cbn [insert_sorted].
  destruct (handler_ltb y x) eqn:E; [| done].
  cbn [List.filter]. rewrite IH. cbn [List.filter].
  destruct (handler_eqb k y) eqn:Ey, (handler_eqb k x) eqn:Ex; try done.
  apply handler_eqb_iff in Ey, Ex. apply handler_ltb_iff in E.
  unfold runs_before in E. lia.
Qed.

Lemma sort_stable k l :
  List.filter (handler_eqb k) (sort l) = List.filter (handler_eqb k) l.
Proof.
  induction l as [| x l IH]; [done |]. cbn [sort].
  rewrite insert_sorted_stable. cbn [List.filter]. by rewrite IH.
Qed.

(** ** The registry after each operation *)

Lemma get_handlers_insert b ev ev' l c :
  get_handlers {| _handlers := <[ev := l]> (_handlers b); _counter := c |} ev' =
  if decide (ev = ev') then l else get_handlers b ev'.
Proof.
  unfold get_handlers; simpl. rewrite lookup_insert.
  by destruct (decide (ev = ev')).
Qed.

Lemma get_handlers_init ev : get_handlers EventBus_init ev = [].
Proof. unfold get_handlers; simpl. by rewrite lookup_empty. Qed.

Lemma get_handlers_clear b ev : get_handlers (clear b) ev = [].
Proof. unfold get_handlers; simpl. by rewrite lookup_empty. Qed.

Lemma get_handlers_on b ev ev' f prio fl :
  get_handlers (on b ev (PyFunc f) prio fl).1 ev' =
  if decide (ev = ev')
  then get_handlers b ev ++ [mk_Handler prio (_counter b + 1) f fl]
  else get_handlers b ev'.
Proof. unfold on; simpl. apply get_handlers_insert. Qed.

Lemma counter_on b ev f prio fl :
  _counter (on b ev (PyFunc f) prio fl).1 = _counter b + 1.
Proof. reflexivity. Qed.

Lemma filter_true {A} (l : list A) : List.filter (fun _ => true) l = l.
Proof. induction l; simpl; congruence. Qed.

Lemma filter_false {A} (l : list A) : List.filter (fun _ => false) l = [].
Proof. induction l; simpl; auto. Qed.

Lemma get_handlers_off b ev ev' handler :
  get_handlers (off b ev handler).1 ev' =
  if decide (ev = ev')
  then List.filter (off_keeps handler) (get_handlers b ev)
  else get_handlers b ev'.
Proof.
  unfold off. destruct (get_handlers b ev) as [| r l] eqn:E.
  - simpl. destruct (decide (ev = ev')) as [<- |]; [by rewrite E | done].
  - destruct handler; simpl fst; rewrite get_handlers_insert;
      destruct (decide (ev = ev')); try done.
    unfold off_keeps. by rewrite (filter_false (r :: l)).
Qed.

Lemma counter_off b ev handler : _counter (off b ev handler).1 = _counter b.
Proof.
  unfold off. destruct (get_handlers b ev); [done |]. by destruct handler.
Qed.

Lemma filter_length_split {A} (f : A → bool) (l : list A) :
  Z.of_nat (length l) - Z.of_nat (length (List.filter f l)) =
  Z.of_nat (length (List.filter (fun x => negb (f x)) l)).
Proof.
  induction l as [| x l IH]; simpl; [done |].
  destruct (f x); simpl; lia.
Qed.

(** The count [off] returns is the number of records it does not keep. *)
Lemma off_count b ev handler :
  (off b ev handler).2 =
  Z.of_nat (length (List.filter (fun h => negb (off_keeps handler h))
                                (get_handlers b ev))).
Proof.
  unfold off. destruct (get_handlers b ev) as [| r l] eqn:E; [done |].
  destruct handler; cbn [snd];
    try exact (filter_length_split (fun h => negb (func_is (func h) _)) (r :: l)).
  change (Z.of_nat (length (r :: l)) =
          Z.of_nat (length (List.filter (fun _ => true) (r :: l)))).
  by rewrite filter_true.
Qed.

Lemma get_handlers_cleanup b ev ev' rm :
  get_handlers (cleanup b ev rm) ev' =
  if decide (ev = ev')
  then List.filter (fun x => negb (handler_in x rm)) (get_handlers b ev)
  else get_handlers b ev'.
Proof. unfold cleanup. apply get_handlers_insert. Qed.

Lemma StronglySorted_filter_bool {A} (R : A → A → Prop) (f : A → bool) l :
  StronglySorted R l → StronglySorted R (List.filter f l).
Proof.
  induction 1 as [| x l Hl IH Hx]; simpl; [constructor |].
  destruct (f x); [| done].
  constructor; [done |].
  apply Forall_forall. intros y Hy.
  apply list_elem_of_In, filter_In in Hy as [Hy _].
  rewrite Forall_forall in Hx. by apply Hx, list_elem_of_In.
Qed.

Lemma StronglySorted_lookup_lt {A} (R : A → A → Prop) (l : list A) i j x y :
  StronglySorted R l → l !! i = Some x → l !! j = Some y → (i < j)%nat → R x y.
Proof.
  intros Hs. revert i j. induction Hs as [| a l Hl IH Ha]; intros i j Hi Hj Hlt.
  - done.
  - destruct j as [| j]; [lia |]. destruct i as [| i]; simpl in *.
    + injection Hi as <-. rewrite Forall_forall in Ha.
      apply Ha. by eapply list_elem_of_lookup_2.
    + eapply IH; eauto. lia.
Qed.

(** No two records of a registry share a sequence number. *)
Lemma wf_no_shared_sequence b ev1 ev2 i j r1 r2 :
  wf b →
  get_handlers b ev1 !! i = Some r1 →
  get_handlers b ev2 !! j = Some r2 →
  order r1 = order r2 → ev1 = ev2 ∧ i = j.
Proof.
  intros Hwf H1 H2 Ho.
  assert (ev1 = ev2) as <-.
  { eapply (wf_distinct b Hwf); [| | exact Ho];
      apply list_elem_of_In; by eapply list_elem_of_lookup_2. }
  split; [done |].
  pose proof (wf_increasing b Hwf ev1) as Hs.
  destruct (Nat.lt_trichotomy i j) as [Hlt | [-> | Hlt]]; [| done |].
  - pose proof (StronglySorted_lookup_lt _ _ _ _ _ _ Hs H1 H2 Hlt). simpl in *. lia.
  - pose proof (StronglySorted_lookup_lt _ _ _ _ _ _ Hs H2 H1 Hlt). simpl in *. lia.
Qed.

Lemma wf_NoDup b ev : wf b → NoDup (List.map order (get_handlers b ev)).
Proof.
  intros Hwf. pose proof (wf_increasing b Hwf ev) as Hs.
  induction Hs as [| x l Hl IH Hx]; simpl; [constructor |].
  apply NoDup_cons. split; [| done].
  intros Hin. apply list_elem_of_In, in_map_iff in Hin as (y & Ey & Hy).
  rewrite Forall_forall in Hx. apply list_elem_of_In, Hx in Hy. lia.
Qed.

Lemma wf_init : wf EventBus_init.
Proof.
  split.
  - done.
  - intros ev. rewrite get_handlers_init. constructor.
  - intros ev r. by rewrite get_handlers_init.
  - intros ev1 ev2 r1 r2. by rewrite get_handlers_init.
Qed.

(** A bus whose record lists are filtered from those of a well-formed
    bus, and whose counter is no smaller, is well formed. *)
Lemma wf_filtered b b' :
  wf b →
  (∀ ev, ∃ keep, get_handlers b' ev = List.filter keep (get_handlers b ev)) →
  _counter b <= _counter b' →
  wf b'.
Proof.
  intros Hwf Hf Hc. split.
  - pose proof (wf_counter b Hwf). lia.
  - intros ev. destruct (Hf ev) as [k ->].
    apply StronglySorted_filter_bool, (wf_increasing b Hwf).
  - intros ev r. destruct (Hf ev) as [k ->]. intros [Hin _]%filter_In.
    pose proof (wf_issued b Hwf ev r Hin). lia.
  - intros ev1 ev2 r1 r2.
    destruct (Hf ev1) as [k1 ->], (Hf ev2) as [k2 ->].
    intros [H1 _]%filter_In [H2 _]%filter_In. by apply (wf_distinct b Hwf).
Qed.

Lemma wf_off b ev handler : wf b → wf (off b ev handler).1.
Proof.
  intros Hwf. apply (wf_filtered b); [done | | by rewrite counter_off].
  intros ev'. rewrite get_handlers_off. destruct (decide (ev = ev')) as [<- |].
  - by eexists.
  - exists (fun _ => true). by rewrite filter_true.
Qed.

Lemma wf_clear b : wf b → wf (clear b).
Proof.
  intros Hwf. apply (wf_filtered b); [done | | done].
  intros ev. rewrite get_handlers_clear. exists (fun _ => false).
  by rewrite filter_false.
Qed.

Lemma wf_cleanup b ev rm : wf b → wf (cleanup b ev rm).
Proof.
  intros Hwf. apply (wf_filtered b); [done | | done].
  intros ev'. rewrite get_handlers_cleanup. destruct (decide (ev = ev')) as [<- |].
  - by eexists.
  - exists (fun _ => true). by rewrite filter_true.
Qed.

Lemma wf_on b ev f prio fl : wf b → wf (on b ev (PyFunc f) prio fl).1.
Proof.
  intros Hwf. pose proof (wf_counter b Hwf) as Hc. split.
  - rewrite counter_on. lia.
  - intros ev'. rewrite get_handlers_on. destruct (decide (ev = ev')) as [<- |];
      [| apply (wf_increasing b Hwf)].
    apply StronglySorted_app_2; [| apply (wf_increasing b Hwf) | repeat constructor].
    intros x y Hx Hy. apply list_elem_of_In in Hx.
    apply list_elem_of_singleton in Hy as ->. simpl.
    pose proof (wf_issued b Hwf ev x Hx). lia.
  - intros ev' r. rewrite get_handlers_on, counter_on.
    destruct (decide (ev = ev')) as [<- |].
    + intros [Hin | [<- | []]]%in_app_or; simpl; [| lia].
      pose proof (wf_issued b Hwf ev r Hin). lia.
    + intros Hin. pose proof (wf_issued b Hwf ev' r Hin). lia.
  - intros ev1 ev2 r1 r2. rewrite !get_handlers_on.
    destruct (decide (ev = ev1)) as [<- |], (decide (ev = ev2)) as [E2 |];
      try done.
    + intros [H1 | [<- | []]]%in_app_or H2 Ho; simpl in Ho.
      * by eapply (wf_distinct b Hwf).
      * pose proof (wf_issued b Hwf ev2 r2 H2). lia.
    + subst ev2. intros H1 [H2 | [<- | []]]%in_app_or Ho; simpl in Ho.
      * by eapply (wf_distinct b Hwf).
      * pose proof (wf_issued b Hwf ev1 r1 H1). lia.
    + intros H1 H2 Ho. by eapply (wf_distinct b Hwf).
Qed.

Lemma api_step_wf b b' : api_step b b' → wf b → wf b'.
Proof.
  destruct 1; auto using wf_on, wf_off, wf_clear, wf_cleanup.
Qed.

Lemma api_step_counter b b' : api_step b b' → _counter b <= _counter b'.
Proof.
  destruct 1; rewrite ?counter_on, ?counter_off; simpl; lia.
Qed.

Lemma bus_reach_wf b b' : bus_reach b b' → wf b → wf b'.
Proof. induction 1; eauto using api_step_wf. Qed.

Lemma bus_reach_counter b b' : bus_reach b b' → _counter b <= _counter b'.
Proof.
  induction 1 as [| x y z Hxy _ IH]; [lia |].
  apply api_step_counter in Hxy. lia.
Qed.

(** Every bus obtained from a new one through the public methods
    satisfies the invariant. *)
Lemma reachable_wf b : bus_reach EventBus_init b → wf b.
Proof. intros H. exact (bus_reach_wf _ _ H wf_init). Qed.

(** ** The delivery loop *)

Section DispatchFacts.

Context {State : Type}.
Variable call_func :
  callable → string → payload → World State →
  World State * result (option (coroutine State)).

(** The accumulators only grow at their ends. *)
Lemma deliver_acc hs ev p w tr cl :
  deliver call_func hs ev p w tr cl =
  let d := deliver call_func hs ev p w [] [] in
  mkDelivery (d_world d) (d_outcome d)
             (tr ++ d_to_remove d) (cl ++ d_called d).
Proof.
  revert w tr cl. induction hs as [| h hs IH]; intros w tr cl; simpl.
  - by rewrite !app_nil_r.
  - destruct (invoke call_func h ev p w) as [w1 [[] | e]]; simpl.
    + rewrite IH. rewrite (IH w1 (if once h then [h] else []) [h]). simpl.
      f_equal.
      * destruct (once h); simpl; by rewrite <- ?app_assoc, ?app_nil_r.
      * by rewrite <- app_assoc.
    + by rewrite app_nil_r.
Qed.

Lemma deliver_cons_ok h hs ev p w w1 :
  invoke call_func h ev p w = (w1, Ok tt) →
  deliver call_func (h :: hs) ev p w [] [] =
  let d := deliver call_func hs ev p w1 [] [] in
  mkDelivery (d_world d) (d_outcome d)
             ((if once h then [h] else []) ++ d_to_remove d)
             (h :: d_called d).
Proof.
  intros E. simpl. rewrite E. rewrite deliver_acc. simpl.
  by destruct (once h).
Qed.

Lemma deliver_cons_raise h hs ev p w w1 e :
  invoke call_func h ev p w = (w1, Raise e) →
  deliver call_func (h :: hs) ev p w [] [] = mkDelivery w1 (Raise e) [] [h].
Proof. intros E. simpl. by rewrite E. Qed.

(** A delivery that ends normally has called every record of the
    list, in order, and collected its once records. *)
Lemma deliver_ok hs ev p w :
  d_outcome (deliver call_func hs ev p w [] []) = Ok tt →
  d_called (deliver call_func hs ev p w [] []) = hs ∧
  d_to_remove (deliver call_func hs ev p w [] []) = List.filter once hs.
Proof.
  revert w. induction hs as [| h hs IH]; intros w; [done |].
  destruct (invoke call_func h ev p w) as [w1 [[] | e]] eqn:E.
  - rewrite (deliver_cons_ok _ _ _ _ _ _ E). simpl. intros H.
    destruct (IH w1 H) as [-> ->]. by destruct (once h).
  - by rewrite (deliver_cons_raise _ _ _ _ _ _ _ E).
Qed.

(** A delivery that raises has called the records up to the failing
    one and no other; the state is the one the failing call left. *)
Lemma deliver_raise hs ev p w e :
  d_outcome (deliver call_func hs ev p w [] []) = Raise e →
  ∃ pre h post w1,
    hs = pre ++ h :: post ∧
    deliver call_func pre ev p w [] [] =
      mkDelivery w1 (Ok tt) (List.filter once pre) pre ∧
    invoke call_func h ev p w1 =
      (d_world (deliver call_func hs ev p w [] []), Raise e) ∧
    d_called (deliver call_func hs ev p w [] []) = pre ++ [h] ∧
    d_to_remove (deliver call_func hs ev p w [] []) = List.filter once pre.
Proof.
  revert w. induction hs as [| h hs IH]; intros w; [done |].
  destruct (invoke call_func h ev p w) as [w1 [[] | e']] eqn:E.
  - rewrite (deliver_cons_ok _ _ _ _ _ _ E). simpl. intros H.
    destruct (IH w1 H) as (pre & h' & post & w2 & -> & Hpre & Hinv & Hc & Hr).
    exists (h :: pre), h', post, w2. split; [done |]. split; [| split].
    + rewrite (deliver_cons_ok _ _ _ _ _ _ E), Hpre. simpl.
      by destruct (once h).
    + done.
    + rewrite Hc, Hr. simpl. by destruct (once h).
  - rewrite (deliver_cons_raise _ _ _ _ _ _ _ E). simpl. intros [= ->].
    by exists [], h, hs, w.
Qed.

(** Whatever happens, the calls are an initial segment of the list. *)
Lemma deliver_called_prefix hs ev p w :
  ∃ rest, hs = d_called (deliver call_func hs ev p w [] []) ++ rest.
Proof.
  destruct (d_outcome (deliver call_func hs ev p w [] [])) as [[] | e] eqn:E.
  - apply deliver_ok in E as [-> _]. exists []. by rewrite app_nil_r.
  - apply deliver_raise in E as (pre & h & post & w1 & -> & _ & _ & -> & _).
    exists post. by rewrite <- app_assoc.
Qed.

Lemma deliver_reach hs ev p w :
  uses_api call_func →
  bus_reach (bus w) (bus (d_world (deliver call_func hs ev p w [] []))).
Proof.
  intros Hapi. revert w. induction hs as [| h hs IH]; intros w; [constructor |].
  pose proof (Hapi h ev p w) as Hh.
  destruct (invoke call_func h ev p w) as [w1 [[] | e]] eqn:E; simpl in Hh.
  - rewrite (deliver_cons_ok _ _ _ _ _ _ E). simpl.
    etrans; [exact Hh | apply IH].
  - by rewrite (deliver_cons_raise _ _ _ _ _ _ _ E).
Qed.

(** ** [emit] *)

Lemma emit_calls ev p w :
  calls (emit call_func ev p w) =
  d_called (deliver call_func (sort (get_handlers (bus w) ev)) ev p w [] []).
Proof.
  unfold emit. destruct (d_outcome _) as [[] | e]; [| done].
  by destruct (d_to_remove _).
Qed.

Lemma emit_outcome ev p w :
  outcome (emit call_func ev p w) =
  d_outcome (deliver call_func (sort (get_handlers (bus w) ev)) ev p w [] []).
Proof.
  unfold emit. destruct (d_outcome _) as [[] | e]; [| done].
  by destruct (d_to_remove _).
Qed.

(** On the raising path [emit] is left before the cleanup. *)
Lemma emit_raise_after ev p w e :
  outcome (emit call_func ev p w) = Raise e →
  after (emit call_func ev p w) =
  d_world (deliver call_func (sort (get_handlers (bus w) ev)) ev p w [] []).
Proof.
  rewrite emit_outcome. unfold emit. intros ->. done.
Qed.

(** On the normal path the registry of the event is the live one
    without the records equal to a collected once record. *)
Lemma emit_ok_handlers ev p w :
  outcome (emit call_func ev p w) = Ok tt →
  let d := deliver call_func (sort (get_handlers (bus w) ev)) ev p w [] [] in
  get_handlers (bus (after (emit call_func ev p w))) ev =
  List.filter (fun x => negb (handler_in x (d_to_remove d)))
              (get_handlers (bus (d_world d)) ev).
Proof.
  rewrite emit_outcome. unfold emit. intros ->. simpl.
  destruct (d_to_remove _) as [| r rm] eqn:E; simpl.
  - symmetry. apply filter_true.
  - rewrite get_handlers_cleanup. by rewrite decide_True.
Qed.

Lemma emit_other_handlers ev ev' p w :
  ev ≠ ev' →
  get_handlers (bus (after (emit call_func ev p w))) ev' =
  get_handlers
    (bus (d_world (deliver call_func (sort (get_handlers (bus w) ev)) ev p w [] [])))
    ev'.
Proof.
  intros Hne. unfold emit. destruct (d_outcome _) as [[] | e]; [| done].
  destruct (d_to_remove _); [done |]. simpl.
  rewrite get_handlers_cleanup. by rewrite decide_False.
Qed.

Lemma emit_reach ev p w :
  uses_api call_func →
  bus_reach (bus w) (bus (after (emit call_func ev p w))).
Proof.
  intros Hapi.
  pose proof (deliver_reach (sort (get_handlers (bus w) ev)) ev p w Hapi) as Hd.
  unfold emit. destruct (d_outcome _) as [[] | e]; [| done].
  destruct (d_to_remove _) as [| r rm]; [done |]. simpl.
  etrans; [exact Hd |]. apply rtc_once, step_cleanup.
Qed.

End DispatchFacts.

(** * Properties of the bus *)

(** Callbacks that leave the bus alone leave it alone through a whole
    delivery. *)
Lemma deliver_keeps_bus {State} (call_func :
    callable → string → payload → World State →
    World State * result (option (coroutine State)))
    hs ev p w :
  (∀ h ev p w, bus (invoke call_func h ev p w).1 = bus w) →
  bus (d_world (deliver call_func hs ev p w [] [])) = bus w.
Proof.
  intros Hkeep. revert w. induction hs as [| h hs IH]; intros w; [done |].
  pose proof (Hkeep h ev p w) as Hh.
  destruct (invoke call_func h ev p w) as [w1 [[] | e]] eqn:E; simpl in Hh.
  - rewrite (deliver_cons_ok _ _ _ _ _ _ _ E). simpl. by rewrite IH.
  - by rewrite (deliver_cons_raise _ _ _ _ _ _ _ _ E).
Qed.

(** C1.  The specification states that in a dispatch where a handler
    raises, the once records up to and including the failing one are
    removed, and that a once handler that raises is still removed.  The
    code leaves [emit] at the raising call, before the cleanup, so a
    dispatch that raises removes nothing: when the callbacks do not
    touch the bus, the bus after it is the bus before it.  With a once
    callback that returns followed by one that raises, the dispatch
    raises, both records are still registered, the once one is listed
    and a second dispatch calls it again; a once callback that raises is
    likewise still registered. *)
Theorem C1_once_kept_when_dispatch_raises :
  (∀ State (call_func : callable → string → payload → World State →
                        World State * result (option (coroutine State)))
     ev p w e,
     (∀ h ev p w, bus (invoke call_func h ev p w).1 = bus w) →
     outcome (emit call_func ev p w) = Raise e →
     bus (after (emit call_func ev p w)) = bus w) ∧
  let r := emit Demo.call "e" Demo.nop (Demo.start Demo.bus_once_then_boom) in
  let r2 := emit Demo.call "e" Demo.nop (after r) in
  let s := emit Demo.call "e" Demo.nop (Demo.start Demo.bus_once_boom) in
  outcome r = Raise Demo.boom ∧
  calls r = [mk_Handler 0 1 Demo.f1 true; mk_Handler 0 2 Demo.f9 false] ∧
  get_handlers (bus (after r)) "e" =
    [mk_Handler 0 1 Demo.f1 true; mk_Handler 0 2 Demo.f9 false] ∧
  list_receivers (bus (after r)) "e" = [Demo.f1; Demo.f9] ∧
  store (after r2) = [1; 9; 1; 9]%nat ∧
  outcome s = Raise Demo.boom ∧
  get_handlers (bus (after s)) "e" = [mk_Handler 0 1 Demo.f9 true].
Proof.
  split.
  - intros State call_func ev p w e Hkeep Hraise.
    rewrite (emit_raise_after call_func ev p w e Hraise).
    by apply deliver_keeps_bus.
  - vm_compute. repeat split.
Qed.

(** The loop of [emit] does what the specification words: the state
    and the outcome it ends with are those of calling the callbacks of
    the list one after the other. *)
Lemma deliver_call_in_order {State} (call_func :
    callable → string → payload → World State →
    World State * result (option (coroutine State)))
    hs ev p w :
  (d_world (deliver call_func hs ev p w [] []),
   d_outcome (deliver call_func hs ev p w [] [])) =
  call_in_order call_func hs ev p w.
Proof.
  revert w. induction hs as [| h hs IH]; intros w; [done |].
  destruct (invoke call_func h ev p w) as [w1 [[] | e]] eqn:E.
  - rewrite (deliver_cons_ok _ _ _ _ _ _ _ E). cbn [d_world d_outcome].
    rewrite IH. unfold invoke in E. cbn [call_in_order].
    destruct (call_func (func h) ev p w) as [w0 [[co |] | e0]];
      [| by injection E as -> | done].
    rewrite E. done.
  - rewrite (deliver_cons_raise _ _ _ _ _ _ _ _ E). cbn [d_world d_outcome].
    unfold invoke in E. cbn [call_in_order].
    destruct (call_func (func h) ev p w) as [w0 [[co |] | e0]];
      [| done | by injection E as -> ->].
    rewrite E. done.
Qed.

(** C2.  Handlers are invoked in the order of the snapshot sorted by
    (-priority, sequence) ascending.  What a dispatch does to the state
    is what calling the callbacks of the sorted snapshot one after the
    other does, each in the state the one before left (an awaitable
    being awaited before the next call), up to the first that raises;
    the dispatch ends as that ends, and when it returns the once records
    are then taken out.  The log of the calls is an initial segment of
    the sorted snapshot, and all of it when no handler raises.  The
    sorted snapshot is a rearrangement of the snapshot in which every
    record has a higher priority than each later one, or the same
    priority and a smaller sequence number; it is the only such
    rearrangement, so the order is a function of the registered records;
    and after registering H and then H2, both with priority 10, on a new
    bus the order is [H, H2]. *)
Theorem C2_dispatch_order {State} (call_func :
    callable → string → payload → World State →
    World State * result (option (coroutine State)))
    (ev : string) (p : payload) (w : World State) :
  wf (bus w) →
  let snapshot := get_handlers (bus w) ev in
  let r := emit call_func ev p w in
  let run := call_in_order call_func (sort snapshot) ev p w in
  outcome r = run.2 ∧
  after r =
    match run.2, List.filter once (sort snapshot) with
    | Ok _, x :: rm => set_bus run.1 (cleanup (bus run.1) ev (x :: rm))
    | _, _ => run.1
    end ∧
  store (after r) = store run.1 ∧
  (∃ rest, sort snapshot = calls r ++ rest) ∧
  (outcome r = Ok tt → calls r = sort snapshot) ∧
  Permutation (sort snapshot) snapshot ∧
  StronglySorted runs_before (sort snapshot) ∧
  (∀ i j x y, sort snapshot !! i = Some x → sort snapshot !! j = Some y →
     (i < j)%nat →
     key_lt (- priority x, order x) (- priority y, order y)) ∧
  (∀ l, Permutation l snapshot → StronglySorted runs_before l →
     l = sort snapshot) ∧
  (∀ H H2 fl fl2,
     bus w = (on (on EventBus_init ev (PyFunc H) 10 fl).1 ev (PyFunc H2) 10 fl2).1 →
     sort snapshot = [mk_Handler 10 1 H fl; mk_Handler 10 2 H2 fl2] ∧
     calls r ≠ [mk_Handler 10 2 H2 fl2; mk_Handler 10 1 H fl] ∧
     run =
       match call_in_order call_func [mk_Handler 10 1 H fl] ev p w with
       | (w1, Ok _) => call_in_order call_func [mk_Handler 10 2 H2 fl2] ev p w1
       | (w1, Raise e) => (w1, Raise e)
       end).
Proof.
  intros Hwf snapshot r run.
  pose proof (wf_NoDup _ ev Hwf) as Hnd. fold snapshot in Hnd.
  assert (Hpre : ∃ rest, sort snapshot = calls r ++ rest).
  { unfold r. rewrite emit_calls. apply deliver_called_prefix. }
  pose proof (deliver_call_in_order call_func (sort snapshot) ev p w) as Hrun.
  fold run in Hrun.
  assert (Hout : outcome r = run.2).
  { unfold r. rewrite emit_outcome. fold snapshot. by rewrite <- Hrun. }
  assert (Hafter : after r =
            match run.2, List.filter once (sort snapshot) with
            | Ok _, x :: rm => set_bus run.1 (cleanup (bus run.1) ev (x :: rm))
            | _, _ => run.1
            end).
  { rewrite <- Hrun. cbn [fst snd]. unfold r, emit. fold snapshot.
    destruct (d_outcome (deliver call_func (sort snapshot) ev p w [] []))
      as [[] | e] eqn:E; [| done].
    destruct (deliver_ok call_func _ _ _ _ E) as [_ ->].
    by destruct (List.filter once (sort snapshot)). }
  split; [exact Hout |]. split; [exact Hafter |].
  split.
  { rewrite Hafter. destruct run.2; [| done].
    by destruct (List.filter once (sort snapshot)). }
  split; [exact Hpre |]. split; [| split; [| split; [| split; [| split]]]].
  - unfold r. rewrite emit_outcome, emit_calls. intros H.
    by apply deliver_ok in H as [-> _].
  - apply sort_Permutation.
  - by apply sort_strict.
  - intros i j x y Hi Hj Hlt. apply runs_before_key.
    eapply StronglySorted_lookup_lt; eauto. by apply sort_strict.
  - intros l. by apply sort_unique.
  - intros H H2 fl fl2 Hb.
    assert (Es : sort snapshot = [mk_Handler 10 1 H fl; mk_Handler 10 2 H2 fl2]).
    { unfold snapshot. rewrite Hb, !get_handlers_on, !decide_True by done.
      by rewrite get_handlers_init. }
    split; [done |]. split.
    + destruct Hpre as [rest Hrest]. rewrite Es in Hrest.
      intros Hc. rewrite Hc in Hrest. by injection Hrest.
    + unfold run. rewrite Es. cbn [call_in_order func].
      destruct (call_func H ev p w) as [w1 [[co |] | e]]; try done.
      by destruct (co w1) as [w2 [[] | e]].
Qed.

(** C2, at a concrete bus: three handlers with priorities 0, 10, 10,
    registered in that order; the callbacks log their identities, and
    the log after the dispatch is 2, 7, 1. *)
Lemma C2_dispatch_order_witness :
  wf Demo.bus_three ∧
  calls (emit Demo.call "p" Demo.nop (Demo.start Demo.bus_three)) =
    sort (get_handlers Demo.bus_three "p") ∧
  store (after (emit Demo.call "p" Demo.nop (Demo.start Demo.bus_three))) =
    [2; 7; 1]%nat.
Proof.
  assert (Hwf : wf Demo.bus_three) by (repeat apply wf_on; apply wf_init).
  split; [exact Hwf |].
  destruct (C2_dispatch_order Demo.call "p" Demo.nop
              (Demo.start Demo.bus_three) Hwf) as (_ & _ & Hstore & _ & Hok & _).
  split.
  - apply Hok. vm_compute. reflexivity.
  - rewrite Hstore. vm_compute. reflexivity.
Defined.




(** C4.  The cleanup compares records, not callbacks.  Take a dispatch
    whose snapshot holds a once record [h], and a record with the same
    callback that [on] creates in some later state [b1] of the bus and
    that is registered for the event when the handlers are done: it is
    still registered after the dispatch, while [h] itself is gone when
    the dispatch returns. *)
Theorem C4_cleanup_keeps_later_registration {State} (call_func :
    callable → string → payload → World State →
    World State * result (option (coroutine State)))
    (ev : string) (p : payload) (w : World State)
    (h : _Handler) (b1 : EventBus) (prio : Z) (fl : bool) :
  wf (bus w) →
  In h (get_handlers (bus w) ev) → once h = true →
  bus_reach (bus w) b1 →
  let later := mk_Handler prio (_counter b1 + 1) (func h) fl in
  let d := deliver call_func (sort (get_handlers (bus w) ev)) ev p w [] [] in
  In later (get_handlers (bus (d_world d)) ev) →
  In later (get_handlers (bus (after (emit call_func ev p w))) ev) ∧
  (outcome (emit call_func ev p w) = Ok tt →
   ¬ In h (get_handlers (bus (after (emit call_func ev p w))) ev)).
Proof.
  intros Hwf Hh Honce Hreach later d Hlater.
  destruct (outcome (emit call_func ev p w)) as [[] | e] eqn:E.
  - pose proof (emit_ok_handlers call_func ev p w E) as Hget. simpl in Hget.
    fold d in Hget. rewrite Hget.
    rewrite emit_outcome in E. fold d in E.
    destruct (deliver_ok call_func _ _ _ _ E) as [_ Hrm]. fold d in Hrm.
    split.
    + apply filter_In. split; [done |].
      apply negb_true_iff, not_true_iff_false.
      intros (y & Hy & _ & Ho)%handler_in_iff.
      rewrite Hrm in Hy. apply filter_In in Hy as [Hy _].
      apply list_elem_of_In in Hy. rewrite sort_Permutation in Hy.
      apply list_elem_of_In in Hy.
      pose proof (wf_issued _ Hwf ev y Hy).
      pose proof (bus_reach_counter _ _ Hreach). simpl in Ho. lia.
    + intros _ [_ Hn]%filter_In.
      apply negb_true_iff, not_true_iff_false in Hn. apply Hn.
      apply handler_in_iff. exists h. split; [| done].
      rewrite Hrm. apply filter_In. split; [| done].
      apply list_elem_of_In. rewrite sort_Permutation. by apply list_elem_of_In.
  - rewrite (emit_raise_after call_func ev p w e E). fold d. by split.
Qed.

(** C4, at a concrete bus: the once callback 7 registers itself again
    while it is being called. *)
Lemma C4_cleanup_keeps_later_registration_witness :
  In (mk_Handler 0 4 Demo.f7 true)
     (get_handlers
        (bus (after (emit Demo.call "p" Demo.nop (Demo.start Demo.bus_three))))
        "p") ∧
  ¬ In (mk_Handler 10 3 Demo.f7 true)
     (get_handlers
        (bus (after (emit Demo.call "p" Demo.nop (Demo.start Demo.bus_three))))
        "p").
Proof.
  assert (Hwf : wf Demo.bus_three) by (repeat apply wf_on; apply wf_init).
  destruct (C4_cleanup_keeps_later_registration Demo.call "p" Demo.nop
              (Demo.start Demo.bus_three) (mk_Handler 10 3 Demo.f7 true)
              Demo.bus_three 0 true Hwf) as [Hkept Hgone].
  - vm_compute. auto.
  - reflexivity.
  - constructor.
  - vm_compute. auto.
  - split; [exact Hkept |]. apply Hgone. vm_compute. reflexivity.
Defined.

(** Filtering by identity keeps a list none of whose callbacks is the
    object looked for. *)
Lemma filter_off_keeps_all (l : list _Handler) (f : callable) :
  (∀ x, In x l → fn_id (func x) ≠ fn_id f) →
  List.filter (off_keeps (PyFunc f)) l = l.
Proof.
  induction l as [| x l IH]; intros H; [done |]. simpl.
  pose proof (H x (or_introl eq_refl)) as Hx.
  apply Nat.eqb_neq in Hx. rewrite Hx. simpl. f_equal.
  apply IH. intros y Hy. apply H. by right.
Qed.

(** C5.  [off(event, None)] removes every record of the event and
    returns how many there were; [off(event, f)] removes the records of
    the event whose callback is the object [f] and no other, also not one
    whose callback merely equals [f], and returns how many it removed;
    records of other events and the counter are untouched; when nothing
    matches, or the event is unknown, the result is 0 and the registry
    is as before.  [off] has no raising path. *)
Theorem C5_off_spec (b : EventBus) (ev : string) (f : callable) :
  (get_handlers (off b ev PyNone).1 ev = [] ∧
   (off b ev PyNone).2 = Z.of_nat (length (get_handlers b ev))) ∧
  (get_handlers (off b ev (PyFunc f)).1 ev =
     List.filter (fun x => negb (Nat.eqb (fn_id (func x)) (fn_id f)))
                 (get_handlers b ev) ∧
   (off b ev (PyFunc f)).2 =
     Z.of_nat (length (List.filter
                         (fun x => Nat.eqb (fn_id (func x)) (fn_id f))
                         (get_handlers b ev)))) ∧
  (∀ x, In x (get_handlers (off b ev (PyFunc f)).1 ev) ↔
        In x (get_handlers b ev) ∧ fn_id (func x) ≠ fn_id f) ∧
  (∀ x, In x (get_handlers b ev) → func_eq (func x) f = true →
        fn_id (func x) ≠ fn_id f →
        In x (get_handlers (off b ev (PyFunc f)).1 ev)) ∧
  (∀ handler ev', ev ≠ ev' →
     get_handlers (off b ev handler).1 ev' = get_handlers b ev') ∧
  (∀ handler, _counter (off b ev handler).1 = _counter b) ∧
  ((∀ x, In x (get_handlers b ev) → fn_id (func x) ≠ fn_id f) →
     (off b ev (PyFunc f)).2 = 0 ∧
     get_handlers (off b ev (PyFunc f)).1 ev = get_handlers b ev) ∧
  (∀ handler, _handlers b !! ev = None → off b ev handler = (b, 0)).
Proof.
  assert (Hin : ∀ x, In x (get_handlers (off b ev (PyFunc f)).1 ev) ↔
                     In x (get_handlers b ev) ∧ fn_id (func x) ≠ fn_id f).
  { intros x. rewrite get_handlers_off, decide_True by done.
    rewrite filter_In. unfold off_keeps, func_is.
    by rewrite negb_true_iff, Nat.eqb_neq. }
  pose proof (filter_off_keeps_all (get_handlers b ev) f) as Hnone.
  split_and!.
  - rewrite get_handlers_off, decide_True by done. apply filter_false.
  - rewrite off_count. simpl. by rewrite filter_true.
  - by rewrite get_handlers_off, decide_True.
  - rewrite off_count. do 2 f_equal. apply filter_ext.
    intros x. unfold off_keeps, func_is. apply negb_involutive.
  - exact Hin.
  - intros x Hx _ Hne. by apply Hin.
  - intros handler ev' Hne. by rewrite get_handlers_off, decide_False.
  - intros handler. apply counter_off.
  - intros H. split.
    + pose proof (filter_length_split (off_keeps (PyFunc f)) (get_handlers b ev)) as E.
      rewrite off_count, <- E, (Hnone H). lia.
    + rewrite get_handlers_off, decide_True by done. by apply Hnone.
  - intros handler Hnone'. unfold off, get_handlers. by rewrite Hnone'.
Qed.

(** C5, at a concrete bus: of two equal callbacks only the one given is
    removed, in both of its registrations. *)
Lemma C5_off_spec_witness :
  get_handlers (off Demo.bus_equal_callbacks "x" (PyFunc Demo.g1)).1 "x" =
    [mk_Handler 0 2 Demo.g2 false] ∧
  (off Demo.bus_equal_callbacks "x" (PyFunc Demo.g1)).2 = 2 ∧
  (off Demo.bus_equal_callbacks "x" PyNone).2 = 3 ∧
  off Demo.bus_equal_callbacks "unknown" (PyFunc Demo.g1) =
    (Demo.bus_equal_callbacks, 0).
Proof.
  destruct (C5_off_spec Demo.bus_equal_callbacks "x" Demo.g1)
    as ((_ & Hall) & (Hkept & Hcount) & _).
  destruct (C5_off_spec Demo.bus_equal_callbacks "unknown" Demo.g1)
    as (_ & _ & _ & _ & _ & _ & _ & Hunknown).
  split_and!.
  - rewrite Hkept. vm_compute. reflexivity.
  - rewrite Hcount. vm_compute. reflexivity.
  - rewrite Hall. vm_compute. reflexivity.
  - apply Hunknown. vm_compute. reflexivity.
Defined.

(** C6.  [on] with an object that is not callable raises
    [TypeError("handler must be callable")] at once, in one step; with a
    callable it returns, the event's records are the former ones followed
    by one new record holding the arguments and the next sequence number,
    the counter being advanced to that number, and the other events are
    as before. *)
Theorem C6_on_spec (b : EventBus) (ev : string) (handler : pyobj)
    (prio : Z) (fl : bool) :
  match handler with
  | PyFunc f =>
      (on b ev handler prio fl).2 = Ok tt ∧
      get_handlers (on b ev handler prio fl).1 ev =
        get_handlers b ev ++ [mk_Handler prio (_counter b + 1) f fl] ∧
      _counter (on b ev handler prio fl).1 = _counter b + 1 ∧
      (∀ ev', ev ≠ ev' →
         get_handlers (on b ev handler prio fl).1 ev' = get_handlers b ev')
  | _ =>
      py_callable handler = false ∧
      on b ev handler prio fl =
        (b, Raise (TypeError "handler must be callable"%string))
  end.
Proof.
  destruct handler; try done.
  repeat split.
  - by rewrite get_handlers_on, decide_True.
  - intros ev' Hne. by rewrite get_handlers_on, decide_False.
Qed.

(** C6, at a new bus: a string is refused, a function is registered
    with sequence number 1. *)
Lemma C6_on_spec_witness :
  on EventBus_init "event" (PyStr "not_callable") 0 false =
    (EventBus_init, Raise (TypeError "handler must be callable"%string)) ∧
  get_handlers (on EventBus_init "event" (PyFunc Demo.f1) 5 true).1 "event" =
    [mk_Handler 5 1 Demo.f1 true].
Proof.
  split.
  - exact (proj2 (C6_on_spec EventBus_init "event" (PyStr "not_callable") 0 false)).
  - destruct (C6_on_spec EventBus_init "event" (PyFunc Demo.f1) 5 true)
      as (_ & Hget & _).
    rewrite Hget. vm_compute. reflexivity.
Defined.

Lemma In_lookup {A} (l : list A) (x : A) : In x l → ∃ i, l !! i = Some x.
Proof. intros H. by apply list_elem_of_lookup_1, list_elem_of_In. Qed.

(** In a well-formed bus a record of an event is determined by its
    sequence number. *)
Lemma wf_same_order b ev x y :
  wf b → In x (get_handlers b ev) → In y (get_handlers b ev) →
  order x = order y → x = y.
Proof.
  intros Hwf [i Hi]%In_lookup [j Hj]%In_lookup Ho.
  destruct (wf_no_shared_sequence b ev ev i j x y Hwf Hi Hj Ho) as [_ <-].
  congruence.
Qed.

Lemma Permutation_filter_bool {A} (f : A → bool) (l l' : list A) :
  Permutation l l' → Permutation (List.filter f l) (List.filter f l').
Proof.
  induction 1 as [| x l l' _ IH | x y l | l l' l'' _ IH1 _ IH2]; simpl.
  - done.
  - destruct (f x); [by constructor | done].
  - destruct (f x), (f y); try done. apply perm_swap.
  - by etrans.
Qed.

Lemma keeps_bus_uses_api {State} (call_func :
    callable → string → payload → World State →
    World State * result (option (coroutine State))) :
  keeps_bus call_func → uses_api call_func.
Proof. intros Hk h ev p w. rewrite (Hk h ev p w). constructor. Qed.

(** Among the records of a well-formed bus, the ones the cleanup takes
    for collected are the once records. *)
Lemma handler_in_once b ev x :
  wf b → In x (get_handlers b ev) →
  handler_in x (List.filter once (sort (get_handlers b ev))) = once x.
Proof.
  intros Hwf Hx. destruct (once x) eqn:E.
  - apply handler_in_iff. exists x. split; [| done].
    apply filter_In. split; [| done].
    apply list_elem_of_In. rewrite sort_Permutation. by apply list_elem_of_In.
  - apply not_true_iff_false. intros (y & [Hy Hoy]%filter_In & _ & Ho)%handler_in_iff.
    apply list_elem_of_In in Hy. rewrite sort_Permutation in Hy.
    apply list_elem_of_In in Hy.
    rewrite (wf_same_order b ev x y Hwf Hx Hy Ho) in E. congruence.
Qed.

Lemma emit_counter {State} (call_func :
    callable → string → payload → World State →
    World State * result (option (coroutine State)))
    ev p w :
  _counter (bus (after (emit call_func ev p w))) =
  _counter
    (bus (d_world (deliver call_func (sort (get_handlers (bus w) ev)) ev p w [] []))).
Proof.
  unfold emit. destruct (d_outcome _) as [[] | e]; [| done].
  by destruct (d_to_remove _).
Qed.

(** The registry of the event after a dispatch that returns, when the
    callbacks leave the bus alone. *)
Lemma emit_ok_keeps_non_once {State} (call_func :
    callable → string → payload → World State →
    World State * result (option (coroutine State)))
    ev p w :
  keeps_bus call_func → wf (bus w) →
  outcome (emit call_func ev p w) = Ok tt →
  get_handlers (bus (after (emit call_func ev p w))) ev =
  List.filter (fun h => negb (once h)) (get_handlers (bus w) ev).
Proof.
  intros Hk Hwf Hok.
  rewrite (emit_ok_handlers call_func ev p w Hok).
  rewrite emit_outcome in Hok.
  destruct (deliver_ok call_func _ _ _ _ Hok) as [_ ->].
  rewrite deliver_keeps_bus by exact Hk.
  apply filter_ext_in. intros x Hx. by rewrite (handler_in_once _ _ _ Hwf Hx).
Qed.

Lemma plain_keeps_bus : keeps_bus Plain.call.
Proof.
  intros h ev p w. unfold invoke, Plain.call.
  by destruct (Nat.eqb (fn_id (func h)) 9).
Qed.

Lemma demo_bus_three_wf : wf Demo.bus_three.
Proof. repeat apply wf_on. apply wf_init. Qed.

(** C7, as the specification has it, fails when the callback of the
    once handler is also held by another registration: after
    [bus.on("e", f1, once=True); bus.on("e", f1)] and a dispatch that
    returns, in which the once handler was invoked and completed, [f1]
    is still in [list_receivers("e")], and a second dispatch invokes it
    again (the log of the callbacks grows from 1, 1 to 1, 1, 1). *)
Lemma C7_counterexample_callback_registered_twice :
  let b := (on (on EventBus_init "e" (PyFunc Demo.f1) 0 true).1
               "e" (PyFunc Demo.f1) 0 false).1 in
  let r := emit Plain.call "e" Demo.nop (Demo.start b) in
  let r2 := emit Plain.call "e" Demo.nop (after r) in
  ¬ (outcome r = Ok tt →
     In (mk_Handler 0 1 Demo.f1 true) (calls r) →
     ¬ In Demo.f1 (list_receivers (bus (after r)) "e") ∧
     store (after r2) = store (after r)).
Proof.
  intros b r r2 H.
  assert (Hok : outcome r = Ok tt) by (vm_compute; reflexivity).
  assert (Hin : In (mk_Handler 0 1 Demo.f1 true) (calls r))
    by (vm_compute; auto).
  destruct (H Hok Hin) as [Hlisted _]. apply Hlisted.
  vm_compute. auto.
Qed.

(** C7.  A once record of the snapshot of a dispatch that returns has
    been invoked and is no longer registered for the event, and a
    further dispatch of the event does not invoke it.  [list_receivers]
    lists callbacks: afterwards the callback of the record is listed
    exactly when a record that is still registered holds it.  With
    callbacks that leave the bus alone, on a bus built through the
    methods, the list is that of the callbacks of the records that were
    not once, in order; and when every registration of the callback for
    the event was once, the callback is not listed any more and a
    further dispatch does not call it. *)
Theorem C7_once_removed_after_dispatch {State} (call_func :
    callable → string → payload → World State →
    World State * result (option (coroutine State)))
    (ev : string) (p : payload) (w : World State) (h : _Handler) :
  In h (get_handlers (bus w) ev) → once h = true →
  outcome (emit call_func ev p w) = Ok tt →
  let w' := after (emit call_func ev p w) in
  In h (calls (emit call_func ev p w)) ∧
  ¬ In h (get_handlers (bus w') ev) ∧
  (∀ p', ¬ In h (calls (emit call_func ev p' w'))) ∧
  (In (func h) (list_receivers (bus w') ev) ↔
   ∃ x, In x (get_handlers (bus w') ev) ∧ x ≠ h ∧ func x = func h) ∧
  (keeps_bus call_func → wf (bus w) →
   list_receivers (bus w') ev =
     List.map func
       (List.filter (fun x => negb (once x)) (get_handlers (bus w) ev)) ∧
   ((∀ x, In x (get_handlers (bus w) ev) → func x = func h → once x = true) →
    ¬ In (func h) (list_receivers (bus w') ev) ∧
    ∀ p' x, In x (calls (emit call_func ev p' w')) → func x ≠ func h)).
Proof.
  intros Hh Honce Hok w'.
  pose proof (emit_ok_handlers call_func ev p w Hok) as Hget. simpl in Hget.
  fold w' in Hget.
  pose proof Hok as Hd. rewrite emit_outcome in Hd.
  destruct (deliver_ok call_func _ _ _ _ Hd) as [Hc Hrm].
  assert (Hs : In h (sort (get_handlers (bus w) ev))).
  { apply list_elem_of_In. rewrite sort_Permutation. by apply list_elem_of_In. }
  assert (Hgone : ¬ In h (get_handlers (bus w') ev)).
  { rewrite Hget. intros [_ Hn]%filter_In.
    apply negb_true_iff, not_true_iff_false in Hn. apply Hn.
    apply handler_in_iff. exists h. split; [| done].
    rewrite Hrm. by apply filter_In. }
  assert (Hcalls : ∀ p' x, In x (calls (emit call_func ev p' w')) →
                           In x (get_handlers (bus w') ev)).
  { intros p' x Hx. rewrite emit_calls in Hx.
    destruct (deliver_called_prefix call_func
                (sort (get_handlers (bus w') ev)) ev p' w') as [rest Hrest].
    apply list_elem_of_In. rewrite <- (sort_Permutation (get_handlers (bus w') ev)).
    rewrite Hrest. apply list_elem_of_In, in_or_app. by left. }
  split; [by rewrite emit_calls, Hc |]. split; [done |].
  split; [| split].
  - intros p' Hx. by apply Hgone, (Hcalls p').
  - unfold list_receivers. rewrite in_map_iff. split.
    + intros (x & Ex & Hx). exists x. split_and!; [done | | done].
      intros ->. by apply Hgone.
    + intros (x & Hx & _ & Ex). by exists x.
  - intros Hk Hwf.
    pose proof (emit_ok_keeps_non_once call_func ev p w Hk Hwf Hok) as Hleft.
    fold w' in Hleft.
    split; [unfold list_receivers; by rewrite Hleft |].
    intros Hall.
    assert (Hnone : ∀ x, In x (get_handlers (bus w') ev) → func x ≠ func h).
    { intros x. rewrite Hleft. intros [Hx Hn]%filter_In Ex.
      rewrite (Hall x Hx Ex) in Hn. done. }
    split.
    + unfold list_receivers. intros (x & Ex & Hx)%in_map_iff.
      by apply (Hnone x).
    + intros p' x Hx. by apply Hnone, (Hcalls p').
Qed.

(** C7, at a concrete bus and with callbacks that only log: of three
    handlers the one registered once is no longer registered after the
    dispatch, its callback is no longer listed, and the second dispatch
    calls the two others only. *)
Lemma C7_once_removed_after_dispatch_witness :
  let r := emit Plain.call "p" Demo.nop (Demo.start Demo.bus_three) in
  ¬ In (mk_Handler 10 3 Demo.f7 true) (get_handlers (bus (after r)) "p") ∧
  ¬ In Demo.f7 (list_receivers (bus (after r)) "p") ∧
  (∀ x, In x (calls (emit Plain.call "p" Demo.nop (after r))) →
        func x ≠ Demo.f7) ∧
  store (after (emit Plain.call "p" Demo.nop (after r))) = [2; 7; 1; 2; 1]%nat.
Proof.
  intros r.
  destruct (C7_once_removed_after_dispatch Plain.call "p" Demo.nop
              (Demo.start Demo.bus_three) (mk_Handler 10 3 Demo.f7 true))
    as (_ & Hgone & _ & _ & Hplain).
  - vm_compute. auto.
  - reflexivity.
  - vm_compute. reflexivity.
  - destruct Hplain as [_ Honly].
    + exact plain_keeps_bus.
    + exact demo_bus_three_wf.
    + destruct Honly as [Hlist Hcalls].
      * intros x Hx Ex. vm_compute in Hx.
        destruct Hx as [<- | [<- | [<- | []]]]; try done;
          by vm_compute in Ex.
      * split_and!; [exact Hgone | exact Hlist | exact (Hcalls Demo.nop) |].
        vm_compute. reflexivity.
Defined.

(** The example callbacks reach the bus through [on] only. *)
Lemma demo_uses_api : uses_api Demo.call.
Proof.
  intros h ev p w. unfold invoke, Demo.call.
  destruct (Nat.eqb (fn_id (func h)) 9); [constructor |].
  destruct (Nat.eqb (fn_id (func h)) 7); [apply rtc_once, step_on |].
  destruct (Nat.eqb (fn_id (func h)) 8); constructor.
Qed.

(** C8.  The sequence-number invariant [wf] holds of a new bus and is
    kept by [on], [off], [clear] and [emit] (whose callbacks change the
    bus through its methods); under it no two records of the registry
    share a sequence number and the numbers of an event's records
    increase strictly in registration order; a successful [on] advances
    the counter by exactly one whatever the event; no operation lowers
    the counter, and the number a registration issues is above every
    number issued before, so none is used twice. *)
Theorem C8_sequence_invariant {State} (call_func :
    callable → string → payload → World State →
    World State * result (option (coroutine State))) :
  uses_api call_func →
  wf EventBus_init ∧
  (∀ b ev handler prio fl, wf b → wf (on b ev handler prio fl).1) ∧
  (∀ b ev handler, wf b → wf (off b ev handler).1) ∧
  (∀ b, wf b → wf (clear b)) ∧
  (∀ ev p w, wf (bus w) → wf (bus (after (emit call_func ev p w)))) ∧
  (∀ b ev1 ev2 i j r1 r2, wf b →
     get_handlers b ev1 !! i = Some r1 → get_handlers b ev2 !! j = Some r2 →
     order r1 = order r2 → ev1 = ev2 ∧ i = j) ∧
  (∀ b ev i j r1 r2, wf b →
     get_handlers b ev !! i = Some r1 → get_handlers b ev !! j = Some r2 →
     (i < j)%nat → order r1 < order r2) ∧
  (∀ b ev f prio fl,
     _counter (on b ev (PyFunc f) prio fl).1 = _counter b + 1) ∧
  (∀ b ev handler, _counter (off b ev handler).1 = _counter b) ∧
  (∀ b, _counter (clear b) = _counter b) ∧
  (∀ ev p w, _counter (bus w) <= _counter (bus (after (emit call_func ev p w)))) ∧
  (∀ b b' ev f prio fl ev' r, wf b → bus_reach b b' →
     In r (get_handlers b ev') →
     order r < order (mk_Handler prio (_counter b' + 1) f fl) ∧
     In (mk_Handler prio (_counter b' + 1) f fl)
        (get_handlers (on b' ev (PyFunc f) prio fl).1 ev)).
Proof.
  intros Hapi. split_and!.
  - apply wf_init.
  - intros b ev handler prio fl Hwf.
    destruct handler; try done. by apply wf_on.
  - intros. by apply wf_off.
  - intros. by apply wf_clear.
  - intros ev p w Hwf. eapply bus_reach_wf; [| exact Hwf]. by apply emit_reach.
  - intros b ev1 ev2 i j r1 r2 Hwf. by apply wf_no_shared_sequence.
  - intros b ev i j r1 r2 Hwf H1 H2 Hlt.
    exact (StronglySorted_lookup_lt _ _ _ _ _ _ (wf_increasing b Hwf ev) H1 H2 Hlt).
  - intros. apply counter_on.
  - intros. apply counter_off.
  - done.
  - intros ev p w. by apply bus_reach_counter, emit_reach.
  - intros b b' ev f prio fl ev' r Hwf Hreach Hr. split.
    + pose proof (wf_issued b Hwf ev' r Hr).
      pose proof (bus_reach_counter _ _ Hreach). simpl. lia.
    + rewrite get_handlers_on, decide_True by done.
      apply in_or_app. right. by left.
Qed.

(** C8, with the example callbacks: the invariant after a dispatch in
    which a callback registers a new record. *)
Lemma C8_sequence_invariant_witness :
  wf (bus (after (emit Demo.call "p" Demo.nop (Demo.start Demo.bus_three)))).
Proof.
  destruct (C8_sequence_invariant Demo.call demo_uses_api)
    as (Hinit & Hon & _ & _ & Hemit & _).
  apply Hemit. simpl. unfold Demo.bus_three.
  repeat apply Hon. exact Hinit.
Defined.

(** [asyncio.run] ends as its coroutine ends. *)
Lemma asyncio_run_outcome {State}
    (loop_close : list (string * payload) → World State →
                  World State * list _Handler)
    (coro : World State → dispatched State) (w : World State) :
  outcome (asyncio_run loop_close coro w) =
  outcome (coro (set_loop w (Some []))).
Proof.
  unfold asyncio_run. by destruct (running_loop (after _)) as [[| t rest] |].
Qed.

Lemma emit_sync_no_loop {State} (call_func :
    callable → string → payload → World State →
    World State * result (option (coroutine State)))
    (loop_close : list (string * payload) → World State →
                  World State * list _Handler)
    (ev : string) (p : payload) (w : World State) :
  running_loop w = None →
  emit_sync call_func loop_close ev p w =
  (asyncio_run loop_close (emit call_func ev p) w,
   match outcome (asyncio_run loop_close (emit call_func ev p) w) with
   | Ok _ => Ok PyNone
   | Raise e => Raise e
   end).
Proof.
  intros E. unfold emit_sync. rewrite E.
  by destruct (outcome (asyncio_run loop_close (emit call_func ev p) w)).
Qed.

(** C9.  [emit_sync] has two modes, told apart by what it returns.
    With no running loop it runs the dispatch to its end before
    returning: the outcome is that of [emit] run under a loop of its
    own, the records [emit] called have been called, no loop is running
    afterwards, and the state is the one [emit] left, after the closing
    of the loop has dealt with what the handlers left scheduled on it
    (nothing more happens when they left nothing); it returns [None]
    when the dispatch returns, and an exception of the dispatch
    propagates.  With a running loop it calls no handler and changes
    neither the bus nor the handlers' state: it appends the dispatch to
    the loop's scheduled work and returns the task; the loop later runs
    exactly that dispatch.  So [None] is returned only in the first mode
    and a task only in the second. *)
Theorem C9_emit_sync_modes {State} (call_func :
    callable → string → payload → World State →
    World State * result (option (coroutine State)))
    (loop_close : list (string * payload) → World State →
                  World State * list _Handler)
    (ev : string) (p : payload) (w : World State) :
  (running_loop w = None →
     let r := emit call_func ev p (set_loop w (Some [])) in
     (emit_sync call_func loop_close ev p w).2 =
       match outcome r with Ok _ => Ok PyNone | Raise e => Raise e end ∧
     outcome (emit_sync call_func loop_close ev p w).1 = outcome r ∧
     running_loop (after (emit_sync call_func loop_close ev p w).1) = None ∧
     after (emit_sync call_func loop_close ev p w).1 =
       set_loop
         match running_loop (after r) with
         | Some (t :: rest) => (loop_close (t :: rest) (after r)).1
         | _ => after r
         end None ∧
     calls (emit_sync call_func loop_close ev p w).1 =
       calls r ++
       match running_loop (after r) with
       | Some (t :: rest) => (loop_close (t :: rest) (after r)).2
       | _ => []
       end ∧
     (running_loop (after r) = Some [] →
      (emit_sync call_func loop_close ev p w).1 =
        mkDispatched (set_loop (after r) None) (outcome r) (calls r))) ∧
  (∀ scheduled, running_loop w = Some scheduled →
     (emit_sync call_func loop_close ev p w).2 = Ok (PyTask (length scheduled)) ∧
     calls (emit_sync call_func loop_close ev p w).1 = [] ∧
     bus (after (emit_sync call_func loop_close ev p w).1) = bus w ∧
     store (after (emit_sync call_func loop_close ev p w).1) = store w ∧
     running_loop (after (emit_sync call_func loop_close ev p w).1) =
       Some (scheduled ++ [(ev, p)]) ∧
     (scheduled = [] →
      run_scheduled call_func (after (emit_sync call_func loop_close ev p w).1) =
        Some (emit call_func ev p (set_loop w (Some []))))) ∧
  ((emit_sync call_func loop_close ev p w).2 = Ok PyNone → running_loop w = None) ∧
  (∀ n, (emit_sync call_func loop_close ev p w).2 = Ok (PyTask n) →
        ∃ scheduled, running_loop w = Some scheduled ∧ n = length scheduled) ∧
  core.emit_sync call_func loop_close ev p w = emit_sync call_func loop_close ev p w.
Proof.
  unfold core.emit_sync.
  destruct (running_loop w) as [q |] eqn:E.
  - unfold emit_sync. rewrite E. split_and!; [| | | | done].
    + intros [=].
    + intros scheduled [= <-]. simpl. split_and!; try done.
      intros ->. unfold run_scheduled. simpl. done.
    + simpl. intros [=].
    + intros n. simpl. intros [= <-]. by exists q.
  - split_and!; [| | | | done].
    + intros _.
      rewrite (emit_sync_no_loop call_func loop_close ev p w E). cbn [fst snd].
      rewrite asyncio_run_outcome. unfold asyncio_run.
      set (r := emit call_func ev p (set_loop w (Some []))).
      destruct (running_loop (after r)) as [[| t rest] |] eqn:Hl;
        cbn [after calls running_loop set_loop];
        rewrite ?app_nil_r; split_and!; try done.
    + intros scheduled [=].
    + done.
    + intros n.
      rewrite (emit_sync_no_loop call_func loop_close ev p w E). cbn [snd].
      rewrite asyncio_run_outcome.
      by destruct (outcome (emit call_func ev p (set_loop w (Some [])))).
Qed.

(** C9, with an [async def] handler: without a loop the handler has run
    when [emit_sync] returns [None]; under a loop nothing has run when it
    returns the task, and the handler runs when the loop gets to it.
    And with a handler that itself calls [emit_sync]: the dispatch it
    schedules runs when the loop is closed, after the handler is done. *)
Lemma C9_emit_sync_modes_witness :
  let w := Demo.start Demo.bus_async in
  let wl := set_loop w (Some []) in
  let close := close_by_running Demo.call in
  ((emit_sync Demo.call close "evt" Demo.nop w).2 = Ok PyNone ∧
   store (after (emit_sync Demo.call close "evt" Demo.nop w).1) = [8%nat]) ∧
  ((emit_sync Demo.call close "evt" Demo.nop wl).2 = Ok (PyTask 0) ∧
   store (after (emit_sync Demo.call close "evt" Demo.nop wl).1) = [] ∧
   (store ∘ after) <$>
     run_scheduled Demo.call
       (after (emit_sync Demo.call close "evt" Demo.nop wl).1) =
     Some [8%nat]) ∧
  store (after (emit_sync Nested.call (close_by_running Nested.call)
                  "outer" Demo.nop (Demo.start Nested.bus_nested)).1) =
    [3; 33; 1]%nat.
Proof.
  intros w wl close.
  destruct (C9_emit_sync_modes Demo.call close "evt" Demo.nop w)
    as (Hnone & _ & _ & _ & _).
  destruct (C9_emit_sync_modes Demo.call close "evt" Demo.nop wl)
    as (_ & Hloop & _ & _ & _).
  destruct (C9_emit_sync_modes Nested.call (close_by_running Nested.call)
              "outer" Demo.nop (Demo.start Nested.bus_nested))
    as (Hnested & _ & _ & _ & _).
  destruct (Hnone eq_refl) as (H1 & _ & _ & H2 & _ & _).
  destruct (Hloop [] eq_refl) as (Hret & _ & _ & Hstore & _ & Hrun).
  destruct (Hnested eq_refl) as (_ & _ & _ & H3 & _ & _).
  split_and!.
  - rewrite H1. vm_compute. reflexivity.
  - rewrite H2. vm_compute. reflexivity.
  - exact Hret.
  - exact Hstore.
  - rewrite (Hrun eq_refl). vm_compute. reflexivity.
  - rewrite H3. vm_compute. reflexivity.
Defined.

(** C10.  A call of [on] with an object that is not callable returns
    the bus it was given, records and counter included, so what any
    later registration does, and the sequence number it issues, is what
    it would have been without the failed call. *)
Theorem C10_failed_on_leaves_bus (b : EventBus) (ev : string)
    (handler : pyobj) (prio : Z) (fl : bool) :
  py_callable handler = false →
  (on b ev handler prio fl).1 = b ∧
  (∃ e, (on b ev handler prio fl).2 = Raise e) ∧
  (∀ ev', get_handlers (on b ev handler prio fl).1 ev' = get_handlers b ev') ∧
  _counter (on b ev handler prio fl).1 = _counter b ∧
  (∀ ev' f prio' fl',
     on (on b ev handler prio fl).1 ev' (PyFunc f) prio' fl' =
     on b ev' (PyFunc f) prio' fl' ∧
     get_handlers (on (on b ev handler prio fl).1 ev' (PyFunc f) prio' fl').1 ev' =
     get_handlers b ev' ++ [mk_Handler prio' (_counter b + 1) f fl']).
Proof.
  intros Hnc.
  assert (E : on b ev handler prio fl =
              (b, Raise (TypeError "handler must be callable"%string)))
    by (by destruct handler).
  rewrite E. cbn [fst snd]. split_and!; [done | by eexists | done | done |].
  intros ev' f prio' fl'. split; [done |].
  by rewrite get_handlers_on, decide_True.
Qed.

(** C10, at a concrete bus: registering the string ["not_callable"]
    fails, and the next registration gets sequence number 4. *)
Lemma C10_failed_on_leaves_bus_witness :
  (on Demo.bus_three "p" (PyStr "not_callable") 0 false).1 = Demo.bus_three ∧
  get_handlers
    (on (on Demo.bus_three "p" (PyStr "not_callable") 0 false).1
        "q" (PyFunc Demo.f1) 0 false).1 "q" =
  [mk_Handler 0 4 Demo.f1 false].
Proof.
  destruct (C10_failed_on_leaves_bus Demo.bus_three "p"
              (PyStr "not_callable") 0 false eq_refl)
    as (Hsame & _ & _ & _ & Hnext).
  split; [exact Hsame |].
  destruct (Hnext "q"%string Demo.f1 0 false) as [_ Hq]. exact Hq.
Defined.

(** * Further properties of the registry *)

Lemma filter_filter_same {A} (f : A → bool) (l : list A) :
  List.filter f (List.filter f l) = List.filter f l.
Proof.
  induction l as [| x l IH]; [done |]. simpl.
  destruct (f x) eqn:E; [| done]. simpl. by rewrite E, IH.
Qed.

Lemma off_unfold b ev handler :
  off b ev handler =
  match get_handlers b ev with
  | [] => (b, 0)
  | _ :: _ =>
      ({| _handlers :=
            <[ev := List.filter (off_keeps handler) (get_handlers b ev)]>
              (_handlers b);
          _counter := _counter b |},
       Z.of_nat (length (get_handlers b ev)) -
       Z.of_nat (length (List.filter (off_keeps handler) (get_handlers b ev))))
  end.
Proof.
  unfold off. destruct (get_handlers b ev) as [| r l]; [done |].
  destruct handler; try done.
  unfold off_keeps. by rewrite (filter_false (r :: l)).
Qed.

Lemma emit_nil {State} (call_func :
    callable → string → payload → World State →
    World State * result (option (coroutine State)))
    (ev : string) (p : payload) (w : World State) :
  get_handlers (bus w) ev = [] →
  emit call_func ev p w = mkDispatched w (Ok tt) [].
Proof. intros E. unfold emit. by rewrite E. Qed.

(** X1.  A dispatch of an event that has no handler, because the event
    was never registered or because its records were all removed, calls
    nothing, returns, and leaves the state, registry included, exactly
    as it was. *)
Theorem X1_emit_without_handlers {State} (call_func :
    callable → string → payload → World State →
    World State * result (option (coroutine State)))
    (ev : string) (p : payload) (w : World State) :
  get_handlers (bus w) ev = [] →
  emit call_func ev p w = mkDispatched w (Ok tt) [].
Proof. apply emit_nil. Qed.

Lemma X1_emit_without_handlers_witness :
  emit Demo.call "unknown" Demo.nop (Demo.start Demo.bus_three) =
  mkDispatched (Demo.start Demo.bus_three) (Ok tt) [].
Proof.
  apply (X1_emit_without_handlers Demo.call "unknown" Demo.nop
           (Demo.start Demo.bus_three)).
  vm_compute. reflexivity.
Defined.

(** X2.  After [clear] no event has a receiver, [off] finds nothing to
    remove, every dispatch is a no-op, and clearing again changes
    nothing; the counter is kept, so the next registration continues the
    numbering instead of starting again at 1. *)
Theorem X2_clear_empties_every_event {State} (call_func :
    callable → string → payload → World State →
    World State * result (option (coroutine State)))
    (b : EventBus) :
  (∀ ev, list_receivers (clear b) ev = []) ∧
  (∀ ev handler, off (clear b) ev handler = (clear b, 0)) ∧
  (∀ ev p (w : World State), bus w = clear b →
     emit call_func ev p w = mkDispatched w (Ok tt) []) ∧
  clear (clear b) = clear b ∧
  (∀ ev f prio fl,
     get_handlers (on (clear b) ev (PyFunc f) prio fl).1 ev =
     [mk_Handler prio (_counter b + 1) f fl]).
Proof.
  split_and!.
  - intros ev. unfold list_receivers. by rewrite get_handlers_clear.
  - intros ev handler. by rewrite off_unfold, get_handlers_clear.
  - intros ev p w Hb. apply emit_nil.
    by rewrite Hb, get_handlers_clear.
  - done.
  - intros ev f prio fl.
    by rewrite get_handlers_on, decide_True, get_handlers_clear.
Qed.

(** X3.  What [off] returns and what it leaves add up: the count
    returned plus the number of records left for the event is the number
    of records there were, and the count is never negative. *)
Theorem X3_off_count_conservation (b : EventBus) (ev : string)
    (handler : pyobj) :
  (off b ev handler).2 +
    Z.of_nat (length (get_handlers (off b ev handler).1 ev)) =
  Z.of_nat (length (get_handlers b ev)) ∧
  0 <= (off b ev handler).2 <= Z.of_nat (length (get_handlers b ev)).
Proof.
  rewrite off_count, get_handlers_off, decide_True by done.
  pose proof (filter_length_split (off_keeps handler) (get_handlers b ev)).
  lia.
Qed.

(** X4.  [off] is idempotent: a second call with the same arguments
    returns 0 and gives back the very same bus. *)
Theorem X4_off_idempotent (b : EventBus) (ev : string) (handler : pyobj) :
  off (off b ev handler).1 ev handler = ((off b ev handler).1, 0).
Proof.
  rewrite (off_unfold b).
  destruct (get_handlers b ev) as [| r l] eqn:E.
  - simpl. by rewrite off_unfold, E.
  - cbn [fst]. rewrite off_unfold, get_handlers_insert, decide_True by done.
    rewrite filter_filter_same.
    destruct (List.filter (off_keeps handler) (r :: l)) as [| r' l'] eqn:F;
      [done |].
    simpl _handlers. rewrite insert_insert_eq. f_equal. lia.
Qed.

(** X5.  Registering a callback and then unregistering it leaves the
    event with the records it had, less the earlier registrations of the
    same callback: the count returned is one more than [off] would have
    returned before the registration, the callback is no longer listed,
    and when it was not registered before, the records of the event are
    those from before and the count is 1. *)
Theorem X5_on_then_off (b : EventBus) (ev : string) (f : callable)
    (prio : Z) (fl : bool) :
  let b1 := (on b ev (PyFunc f) prio fl).1 in
  get_handlers (off b1 ev (PyFunc f)).1 ev =
    get_handlers (off b ev (PyFunc f)).1 ev ∧
  (off b1 ev (PyFunc f)).2 = 1 + (off b ev (PyFunc f)).2 ∧
  ¬ In f (list_receivers (off b1 ev (PyFunc f)).1 ev) ∧
  ((∀ x, In x (get_handlers b ev) → fn_id (func x) ≠ fn_id f) →
   get_handlers (off b1 ev (PyFunc f)).1 ev = get_handlers b ev ∧
   (off b1 ev (PyFunc f)).2 = 1).
Proof.
  intros b1.
  assert (Hget : get_handlers (off b1 ev (PyFunc f)).1 ev =
                 get_handlers (off b ev (PyFunc f)).1 ev).
  { unfold b1. rewrite !get_handlers_off, !decide_True by done.
    rewrite get_handlers_on, decide_True by done.
    rewrite List.filter_app. simpl. rewrite Nat.eqb_refl. simpl.
    apply app_nil_r. }
  assert (Hcount : (off b1 ev (PyFunc f)).2 = 1 + (off b ev (PyFunc f)).2).
  { unfold b1. rewrite !off_count.
    rewrite get_handlers_on, decide_True by done.
    rewrite List.filter_app, length_app. simpl. rewrite Nat.eqb_refl. simpl.
    lia. }
  split_and!; [done | done | |].
  - unfold list_receivers. rewrite get_handlers_off, decide_True by done.
    intros (x & Ex & [_ Hx]%filter_In)%in_map_iff.
    simpl in Hx. rewrite Ex, Nat.eqb_refl in Hx. done.
  - intros Hnew. rewrite Hget, Hcount.
    pose proof (filter_off_keeps_all (get_handlers b ev) f Hnew) as Hall.
    pose proof (filter_length_split (off_keeps (PyFunc f)) (get_handlers b ev)) as Hlen.
    rewrite get_handlers_off, decide_True, off_count, <- Hlen, Hall by done.
    split; [done | lia].
Qed.

(** X6.  Unlike [on], [off] does not object to an object that is not
    callable: given one (other than [None]) it returns 0 and every
    event keeps its records. *)
Theorem X6_off_not_callable (b : EventBus) (ev : string) (handler : pyobj) :
  py_callable handler = false → handler ≠ PyNone →
  (off b ev handler).2 = 0 ∧
  (∀ ev', get_handlers (off b ev handler).1 ev' = get_handlers b ev') ∧
  _counter (off b ev handler).1 = _counter b.
Proof.
  intros Hnc Hnn.
  assert (Hkeep : List.filter (off_keeps handler) (get_handlers b ev) =
                  get_handlers b ev).
  { destruct handler; try done; apply filter_true. }
  pose proof (filter_length_split (off_keeps handler) (get_handlers b ev)) as Hlen.
  split_and!.
  - rewrite off_count, <- Hlen, Hkeep. lia.
  - intros ev'. rewrite get_handlers_off.
    destruct (decide (ev = ev')) as [<- |]; [exact Hkeep | done].
  - apply counter_off.
Qed.

Lemma X6_off_not_callable_witness :
  (off Demo.bus_three "p" (PyStr "not_callable")).2 = 0 ∧
  get_handlers (off Demo.bus_three "p" (PyStr "not_callable")).1 "p" =
  get_handlers Demo.bus_three "p".
Proof.
  destruct (X6_off_not_callable Demo.bus_three "p" (PyStr "not_callable"))
    as (H0 & Hsame & _); [reflexivity | discriminate |].
  split; [exact H0 | exact (Hsame "p"%string)].
Defined.

(** * Further properties of dispatch *)

(** X7.  With callbacks that leave the bus alone, a dispatch that
    returns removes from the event the once records it had and nothing
    else: the other records stay, in their order; the other events and
    the counter are as before. *)
Theorem X7_dispatch_removes_only_once {State} (call_func :
    callable → string → payload → World State →
    World State * result (option (coroutine State)))
    (ev : string) (p : payload) (w : World State) :
  keeps_bus call_func → wf (bus w) →
  outcome (emit call_func ev p w) = Ok tt →
  get_handlers (bus (after (emit call_func ev p w))) ev =
    List.filter (fun h => negb (once h)) (get_handlers (bus w) ev) ∧
  (∀ ev', ev ≠ ev' →
     get_handlers (bus (after (emit call_func ev p w))) ev' =
     get_handlers (bus w) ev') ∧
  _counter (bus (after (emit call_func ev p w))) = _counter (bus w).
Proof.
  intros Hk Hwf Hok. split_and!.
  - by apply emit_ok_keeps_non_once.
  - intros ev' Hne. rewrite emit_other_handlers by done.
    by rewrite deliver_keeps_bus.
  - rewrite emit_counter. by rewrite deliver_keeps_bus.
Qed.

Lemma X7_dispatch_removes_only_once_witness :
  get_handlers
    (bus (after (emit Plain.call "p" Demo.nop (Demo.start Demo.bus_three)))) "p" =
  [mk_Handler 0 1 Demo.f1 false; mk_Handler 10 2 Demo.f2 false].
Proof.
  destruct (X7_dispatch_removes_only_once Plain.call "p" Demo.nop
              (Demo.start Demo.bus_three) plain_keeps_bus demo_bus_three_wf)
    as (Hget & _).
  - vm_compute. reflexivity.
  - rewrite Hget. vm_compute. reflexivity.
Defined.

(** X8.  With callbacks that leave the bus alone, the dispatch that
    follows one that returned calls the handlers that one called, less
    the once handlers, in the same order: all of them when it returns,
    an initial segment of them when it raises.  So a once handler is
    called by at most one returning dispatch. *)
Theorem X8_next_dispatch_skips_once {State} (call_func :
    callable → string → payload → World State →
    World State * result (option (coroutine State)))
    (ev : string) (p p' : payload) (w : World State) :
  keeps_bus call_func → wf (bus w) →
  outcome (emit call_func ev p w) = Ok tt →
  let r1 := emit call_func ev p w in
  let r2 := emit call_func ev p' (after r1) in
  (∃ rest,
     List.filter (fun h => negb (once h)) (calls r1) = calls r2 ++ rest) ∧
  (outcome r2 = Ok tt →
   calls r2 = List.filter (fun h => negb (once h)) (calls r1)) ∧
  (∀ x, In x (calls r2) → once x = false).
Proof.
  intros Hk Hwf Hok r1 r2.
  assert (Hc1 : calls r1 = sort (get_handlers (bus w) ev)).
  { unfold r1. rewrite emit_calls. rewrite emit_outcome in Hok.
    by destruct (deliver_ok call_func _ _ _ _ Hok) as [-> _]. }
  assert (Hwf' : wf (bus (after r1))).
  { eapply bus_reach_wf; [| exact Hwf].
    by apply emit_reach, keeps_bus_uses_api. }
  assert (Hs : sort (get_handlers (bus (after r1)) ev) =
               List.filter (fun h => negb (once h)) (calls r1)).
  { symmetry. apply sort_unique.
    - by apply wf_NoDup.
    - unfold r1 at 2. rewrite (emit_ok_keeps_non_once call_func ev p w Hk Hwf Hok).
      rewrite Hc1. apply Permutation_filter_bool, sort_Permutation.
    - rewrite Hc1. apply StronglySorted_filter_bool, sort_strict.
      by apply wf_NoDup. }
  assert (Hpre : ∃ rest,
            List.filter (fun h => negb (once h)) (calls r1) = calls r2 ++ rest).
  { rewrite <- Hs. unfold r2. rewrite emit_calls. apply deliver_called_prefix. }
  split_and!.
  - exact Hpre.
  - intros Hok2. rewrite <- Hs. unfold r2 in *. rewrite emit_calls.
    rewrite emit_outcome in Hok2.
    by destruct (deliver_ok call_func _ _ _ _ Hok2) as [-> _].
  - intros x Hx. destruct Hpre as [rest Hrest].
    assert (Hin : In x (List.filter (fun h => negb (once h)) (calls r1))).
    { rewrite Hrest. apply in_or_app. by left. }
    apply filter_In in Hin as [_ Hn]. by apply negb_true_iff.
Qed.

Lemma X8_next_dispatch_skips_once_witness :
  calls (emit Plain.call "p" Demo.nop
           (after (emit Plain.call "p" Demo.nop (Demo.start Demo.bus_three)))) =
  [mk_Handler 10 2 Demo.f2 false; mk_Handler 0 1 Demo.f1 false].
Proof.
  destruct (X8_next_dispatch_skips_once Plain.call "p" Demo.nop Demo.nop
              (Demo.start Demo.bus_three) plain_keeps_bus demo_bus_three_wf)
    as (_ & Heq & _).
  - vm_compute. reflexivity.
  - rewrite Heq; vm_compute; reflexivity.
Defined.

Lemma NoDup_of_orders (l : list _Handler) :
  NoDup (List.map order l) → NoDup l.
Proof.
  induction l as [| x l IH]; simpl; [constructor |].
  intros [Hx Hl]%NoDup_cons. apply NoDup_cons. split; [| by apply IH].
  intros Hin. apply Hx. apply list_elem_of_In, in_map.
  by apply list_elem_of_In.
Qed.

(** X9.  A dispatch delivers to the records that were registered for
    the event when it began, whatever the callbacks do to the registry
    meanwhile: every record called is one of them, none is called twice,
    all of them are called when the dispatch returns (also those a
    callback has unregistered in between), and a record that is
    registered while the dispatch runs is not called by it. *)
Theorem X9_dispatch_delivers_to_snapshot {State} (call_func :
    callable → string → payload → World State →
    World State * result (option (coroutine State)))
    (ev : string) (p : payload) (w : World State) :
  wf (bus w) →
  let r := emit call_func ev p w in
  (∀ x, In x (calls r) → In x (get_handlers (bus w) ev)) ∧
  NoDup (calls r) ∧
  (outcome r = Ok tt → ∀ x, In x (get_handlers (bus w) ev) → In x (calls r)) ∧
  (∀ b1 f prio fl, bus_reach (bus w) b1 →
     ¬ In (mk_Handler prio (_counter b1 + 1) f fl) (calls r)).
Proof.
  intros Hwf r.
  assert (Hpre : ∃ rest, sort (get_handlers (bus w) ev) = calls r ++ rest).
  { unfold r. rewrite emit_calls. apply deliver_called_prefix. }
  destruct Hpre as [rest Hrest].
  assert (Hin : ∀ x, In x (calls r) → In x (get_handlers (bus w) ev)).
  { intros x Hx. apply list_elem_of_In.
    rewrite <- (sort_Permutation (get_handlers (bus w) ev)), Hrest.
    apply list_elem_of_In, in_or_app. by left. }
  split_and!.
  - exact Hin.
  - assert (Hnd : NoDup (sort (get_handlers (bus w) ev))).
    { apply NoDup_of_orders.
      rewrite (Permutation_map order (sort_Permutation _)). by apply wf_NoDup. }
    rewrite Hrest in Hnd. by apply NoDup_app in Hnd as [? _].
  - intros Hok x Hx. unfold r in *. rewrite emit_calls.
    rewrite emit_outcome in Hok.
    destruct (deliver_ok call_func _ _ _ _ Hok) as [-> _].
    apply list_elem_of_In. rewrite sort_Permutation. by apply list_elem_of_In.
  - intros b1 f prio fl Hreach Hc. apply Hin in Hc.
    pose proof (wf_issued _ Hwf ev _ Hc) as Hle.
    pose proof (bus_reach_counter _ _ Hreach). simpl in Hle. lia.
Qed.

Lemma plain_bus_clearing_wf : wf Plain.bus_clearing.
Proof. repeat apply wf_on. apply wf_init. Qed.

(** X9, twice: callback 7 registers a record during the dispatch, which
    is not called; callback 5 clears the registry before callback 1 is
    reached, which is called all the same. *)
Lemma X9_dispatch_delivers_to_snapshot_witness :
  ¬ In (mk_Handler 0 4 Demo.f7 true)
      (calls (emit Demo.call "p" Demo.nop (Demo.start Demo.bus_three))) ∧
  In (mk_Handler 0 1 Demo.f1 false)
     (calls (emit Plain.call_clearing "p" Demo.nop
               (Demo.start Plain.bus_clearing))) ∧
  get_handlers
    (bus (after (emit Plain.call_clearing "p" Demo.nop
                   (Demo.start Plain.bus_clearing)))) "p" = [].
Proof.
  destruct (X9_dispatch_delivers_to_snapshot Demo.call "p" Demo.nop
              (Demo.start Demo.bus_three) demo_bus_three_wf)
    as (_ & _ & _ & Hlater).
  destruct (X9_dispatch_delivers_to_snapshot Plain.call_clearing "p" Demo.nop
              (Demo.start Plain.bus_clearing) plain_bus_clearing_wf)
    as (_ & _ & Hall & _).
  split_and!.
  - apply (Hlater Demo.bus_three Demo.f7 0 true). constructor.
  - apply Hall; [vm_compute; reflexivity | vm_compute; auto].
  - vm_compute. reflexivity.
Defined.

(** * Registration histories and the decorators *)

Lemma replay_cons r history b :
  replay (r :: history) b =
  replay history (on b (r_event r) (r_handler r) (r_priority r) (r_once r)).1.
Proof. reflexivity. Qed.

Lemma list_receivers_on b ev ev' handler prio fl :
  list_receivers (on b ev' handler prio fl).1 ev =
  list_receivers b ev ++
  match registered_for ev (Registration ev' handler prio fl) with
  | Some f => [f]
  | None => []
  end.
Proof.
  unfold list_receivers, registered_for. cbn [r_handler r_event].
  destruct handler as [| | | f |]; try (simpl; by rewrite app_nil_r).
  rewrite get_handlers_on.
  destruct (decide (ev' = ev)) as [<- |]; [| by rewrite app_nil_r].
  by rewrite List.map_app.
Qed.

(** X10.  What a series of [on] calls leaves on a bus: for each event
    the callbacks listed are those listed before followed by the
    callables the series registered for that event, in the order of the
    calls; the counter has advanced by the number of calls that were
    given a callable, the refused ones leaving no gap; and the
    sequence-number invariant is kept. *)
Theorem X10_replay_registrations (history : list registration)
    (b : EventBus) (ev : string) :
  list_receivers (replay history b) ev =
    list_receivers b ev ++ omap (registered_for ev) history ∧
  _counter (replay history b) =
    _counter b +
    Z.of_nat (length (List.filter (fun r => py_callable (r_handler r)) history)) ∧
  (wf b → wf (replay history b)).
Proof.
  revert b. induction history as [| r history IH]; intros b.
  - simpl. rewrite app_nil_r. split_and!; [done | lia | done].
  - rewrite replay_cons.
    destruct (IH (on b (r_event r) (r_handler r) (r_priority r) (r_once r)).1)
      as (Hl & Hc & Hwf).
    split_and!.
    + rewrite Hl, list_receivers_on. destruct r as [e h pr o]. simpl.
      rewrite <- app_assoc. f_equal.
      by destruct (registered_for ev (Registration e h pr o)).
    + rewrite Hc. destruct r as [e h pr o]. simpl.
      destruct h; simpl; lia.
    + intros Hb. apply Hwf. destruct r as [e h pr o]. simpl.
      destruct h; try done. by apply wf_on.
Qed.

Lemma X10_replay_registrations_witness :
  list_receivers
    (replay [Registration "a" (PyFunc Demo.f1) 0 false;
             Registration "a" (PyStr "not_callable") 0 false;
             Registration "b" (PyFunc Demo.f2) 5 false;
             Registration "a" (PyFunc Demo.f7) 9 true] EventBus_init) "a" =
    [Demo.f1; Demo.f7] ∧
  wf (replay [Registration "a" (PyFunc Demo.f1) 0 false;
              Registration "a" (PyStr "not_callable") 0 false;
              Registration "b" (PyFunc Demo.f2) 5 false;
              Registration "a" (PyFunc Demo.f7) 9 true] EventBus_init).
Proof.
  destruct (X10_replay_registrations
              [Registration "a" (PyFunc Demo.f1) 0 false;
               Registration "a" (PyStr "not_callable") 0 false;
               Registration "b" (PyFunc Demo.f2) 5 false;
               Registration "a" (PyFunc Demo.f7) 9 true] EventBus_init "a")
    as (Hl & _ & Hwf).
  split; [| exact (Hwf wf_init)].
  rewrite Hl. vm_compute. reflexivity.
Defined.

(** X11.  The decorator is [on] that gives the function back: applied
    to a callable it returns that same object, the bus being the one
    [on] leaves, so the callback is listed and [off] with the returned
    object removes the registration; applied to anything else it raises
    the [TypeError] of [on] and the bus is untouched.  The module-level
    decorator does this on the bus it is given, or on the default bus
    when it is given none. *)
Theorem X11_receiver_registers_and_returns (b default_bus : EventBus)
    (ev : string) (prio : Z) (fl : bool) (func : pyobj) :
  match func with
  | PyFunc f =>
      receiver b ev prio fl func = ((on b ev func prio fl).1, Ok func) ∧
      In f (list_receivers (receiver b ev prio fl func).1 ev) ∧
      1 <= (off (receiver b ev prio fl func).1 ev func).2 ∧
      ¬ In f (list_receivers
                (off (receiver b ev prio fl func).1 ev func).1 ev)
  | _ =>
      receiver b ev prio fl func =
        (b, Raise (TypeError "handler must be callable"%string))
  end ∧
  core_decorator.receiver default_bus ev prio fl (Some b) func =
    receiver b ev prio fl func ∧
  core_decorator.receiver default_bus ev prio fl None func =
    receiver default_bus ev prio fl func.
Proof.
  split; [| done].
  destruct func as [| | | f |]; try done.
  assert (E : receiver b ev prio fl (PyFunc f) =
              ((on b ev (PyFunc f) prio fl).1, Ok (PyFunc f))) by done.
  rewrite E. cbn [fst]. split_and!.
  - done.
  - unfold list_receivers. rewrite get_handlers_on, decide_True by done.
    rewrite List.map_app. apply in_or_app. right. by left.
  - rewrite off_count, get_handlers_on, decide_True by done.
    rewrite List.filter_app, length_app. simpl. rewrite Nat.eqb_refl. simpl. lia.
  - unfold list_receivers. rewrite get_handlers_off, decide_True by done.
    intros (x & Ex & [_ Hx]%filter_In)%in_map_iff.
    simpl in Hx. by rewrite Ex, Nat.eqb_refl in Hx.
Qed.

(** X12.  The generated comparisons of [_Handler] order records by
    priority, higher first, then by sequence number: of two records
    exactly one of [x < y], [x == y], [y < x] holds, [<] is transitive,
    and [==] looks at the priority and the sequence number only, not at
    the callback or the once flag. *)
Theorem X12_handler_ordering (x y z : _Handler) :
  (handler_ltb x y = true ↔
   priority y < priority x ∨ (priority x = priority y ∧ order x < order y)) ∧
  (handler_eqb x y = true ↔ priority x = priority y ∧ order x = order y) ∧
  (handler_ltb x y = true ∨ handler_eqb x y = true ∨ handler_ltb y x = true) ∧
  ¬ (handler_ltb x y = true ∧ handler_eqb x y = true) ∧
  ¬ (handler_ltb x y = true ∧ handler_ltb y x = true) ∧
  (handler_ltb x y = true → handler_ltb y z = true → handler_ltb x z = true).
Proof.
  rewrite !handler_ltb_iff, !handler_eqb_iff. unfold runs_before. lia.
Qed.

(** X13.  [emit] raises nothing of its own: when a dispatch raises [e],
    the handlers before some handler [h] of the sorted snapshot have all
    returned, [h] was called in the state they left and raised that [e],
    [h] is the last record called, and the state after the dispatch is
    the one that call left. *)
Theorem X13_emit_raises_only_from_handler {State} (call_func :
    callable → string → payload → World State →
    World State * result (option (coroutine State)))
    (ev : string) (p : payload) (w : World State) (e : exn) :
  outcome (emit call_func ev p w) = Raise e →
  ∃ pre h post,
    sort (get_handlers (bus w) ev) = pre ++ h :: post ∧
    d_outcome (deliver call_func pre ev p w [] []) = Ok tt ∧
    invoke call_func h ev p (d_world (deliver call_func pre ev p w [] [])) =
      (after (emit call_func ev p w), Raise e) ∧
    calls (emit call_func ev p w) = pre ++ [h].
Proof.
  intros Hraise.
  rewrite (emit_raise_after call_func ev p w e Hraise), emit_calls.
  rewrite emit_outcome in Hraise.
  destruct (deliver_raise call_func _ _ _ _ _ Hraise)
    as (pre & h & post & w1 & Hs & Hpre & Hinv & Hc & _).
  exists pre, h, post. rewrite Hpre. simpl. by split_and!.
Qed.

Lemma X13_emit_raises_only_from_handler_witness :
  ∃ pre h post,
    sort (get_handlers Demo.bus_once_then_boom "e") = pre ++ h :: post ∧
    d_outcome (deliver Demo.call pre "e" Demo.nop
                 (Demo.start Demo.bus_once_then_boom) [] []) = Ok tt ∧
    invoke Demo.call h "e" Demo.nop
      (d_world (deliver Demo.call pre "e" Demo.nop
                  (Demo.start Demo.bus_once_then_boom) [] [])) =
      (after (emit Demo.call "e" Demo.nop (Demo.start Demo.bus_once_then_boom)),
       Raise Demo.boom) ∧
    calls (emit Demo.call "e" Demo.nop (Demo.start Demo.bus_once_then_boom)) =
      pre ++ [h].
Proof.
  apply (X13_emit_raises_only_from_handler Demo.call "e" Demo.nop
           (Demo.start Demo.bus_once_then_boom) Demo.boom).
  vm_compute. reflexivity.
Defined.
